(** * bbolt (coyove fork): page codec and transaction write path

    A shallow embedding of [page.go] and [tx.go].  Go's fixed-width integers
    are carried as [Z] with every conversion and wrap-around written out;
    a Go [panic] (and a failed [_assert]) is the [Fatal] outcome, a returned
    [error] is an ordinary value. *)

From Stdlib Require Import ZArith Lia Bool Ascii String.
From Equations Require Import Equations.
From stdpp Require Import strings list gmap sorting.

Local Open Scope Z_scope.

(** ** Machine integers *)

Definition uint32 (z : Z) : Z := z mod 2 ^ 32.
Definition uint64 (z : Z) : Z := z mod 2 ^ 64.
(** Two's-complement reading of the low 64 bits: Go's [int] and [int64] on
    the 64-bit targets this fork supports. *)
Definition int64 (z : Z) : Z := (z + 2 ^ 63) mod 2 ^ 64 - 2 ^ 63.

(** [x << n] and [x >> n] on a [uint64]. *)
Definition shl64 (x n : Z) : Z := uint64 (Z.shiftl x n).
Definition shr64 (x n : Z) : Z := Z.shiftr x n.

(** ** Outcomes: a value, or a panic carrying its format string *)

Inductive outcome (A : Type) : Type :=
| Ret (a : A)
| Fatal (msg : string).
Arguments Ret {A} a.
Arguments Fatal {A} msg.

#[export] Instance outcome_ret : MRet outcome := fun _ a => Ret a.
#[export] Instance outcome_bind : MBind outcome := fun _ _ k o =>
  match o with
  | Ret a => k a
  | Fatal m => Fatal m
  end.

(** Modelled from the spec: [_assert] lives in db.go, which is not among the
    sources; the spec calls it a fatal assertion, never a returned error.  The
    message keeps the format string, without its arguments filled in. *)
Definition _assert (condition : bool) (msg : string) : outcome unit :=
  if condition then Ret tt else Fatal ("assertion failed: " +:+ msg).

(** ** Go's [sort.Search]

    The standard library's binary search, as its source has it:
    [i, j := 0, n; for i < j { h := int(uint(i+j) >> 1); if !f(h) { i = h + 1 }
    else { j = h } }; return i]. *)

Module sort.

Equations? Search_loop (f : nat -> bool) (i j : nat) : nat by wf (j - i)%nat lt :=
  Search_loop f i j with lt_dec i j => {
    | left _ =>
        let h := Nat.div2 (i + j) in
        if f h then Search_loop f i h else Search_loop f (S h) j
    | right _ => i }.
Proof.
  all: subst h; pose proof (Nat.div2_odd (i + j)) as Hd;
    destruct (Nat.odd (i + j)); simpl in Hd; lia.
Qed.

Definition Search (n : nat) (f : nat -> bool) : nat := Search_loop f 0 n.

End sort.

(** ** page.go *)

Module Page.

Definition branchPageFlag : Z := 0x01.
Definition leafPageFlag : Z := 0x02.
Definition metaPageFlag : Z := 0x04.
Definition freelistPageFlag : Z := 0x10.

(** [var fastCheckBits [0x11]bool], filled at the four type flags. *)
Definition fastCheckBits : list bool :=
  <[Z.to_nat freelistPageFlag := true]>
    (<[Z.to_nat metaPageFlag := true]>
       (<[Z.to_nat leafPageFlag := true]>
          (<[Z.to_nat branchPageFlag := true]> (replicate 0x11 false)))).

(** The page header: [id] is a [pgid] (uint64), [flags] and [count] are
    uint16, [overflow] is uint32. *)
Record page : Type := mkPage {
  id : Z;
  flags : Z;
  count : Z;
  overflow : Z
}.

(** [fmt.Sprintf] with the verb [%02x] on an unsigned value: lower-case hex,
    no prefix, padded with zeros to two digits. *)
Definition hex_digit (d : Z) : ascii :=
  match d with
  | 0 => "0" | 1 => "1" | 2 => "2" | 3 => "3" | 4 => "4" | 5 => "5"
  | 6 => "6" | 7 => "7" | 8 => "8" | 9 => "9" | 10 => "a" | 11 => "b"
  | 12 => "c" | 13 => "d" | 14 => "e" | _ => "f"
  end%char.

Fixpoint hex_loop (fuel : nat) (z : Z) (acc : string) : string :=
  match fuel with
  | O => acc
  | S k =>
      let acc' := String (hex_digit (z mod 16)) acc in
      if z / 16 =? 0 then acc' else hex_loop k (z / 16) acc'
  end.

Definition sprintf_02x (z : Z) : string :=
  let s := hex_loop 16 z EmptyString in
  if (String.length s <? 2)%nat then String "0"%char s else s.

(** [func (p *page) typ() string] *)
Definition typ (p : page) : string :=
  if negb (Z.land (flags p) branchPageFlag =? 0) then "branch"
  else if negb (Z.land (flags p) leafPageFlag =? 0) then "leaf"
  else if negb (Z.land (flags p) metaPageFlag =? 0) then "meta"
  else if negb (Z.land (flags p) freelistPageFlag =? 0) then "freelist"
  else "unknown<" +:+ sprintf_02x (flags p) +:+ ">".

(** [func (p *page) fastCheck(id pgid)]; the index into [fastCheckBits] is
    only evaluated when the first disjunct is false. *)
Definition fastCheck (p : page) (expected : Z) : outcome unit :=
  if negb (id p =? expected) then
    Fatal "Page expected to be: %v, but self identifies as %v"
  else if (freelistPageFlag <? flags p)
          || negb (default false (fastCheckBits !! Z.to_nat (flags p))) then
    Fatal "page %v: has unexpected type/flags: %x"
  else Ret tt.

(** [func (s pages) Less(i, j int) bool { return s[i].id < s[j].id }] *)
Definition Less (p q : page) : Prop := id p < id q.
Definition not_after (p q : page) : Prop := ~ Less q p.

#[export] Instance Less_dec : RelDecision Less.
Proof. intros p q. unfold Less. apply _. Defined.
#[export] Instance not_after_dec : RelDecision not_after.
Proof. intros p q. unfold not_after. apply _. Defined.

(** *** The bit-packed leaf element *)

Module leafPageElement.

(**  1: flags, 26: pos, 13: key, 24: value *)
Record t : Type := mk { data : Z }.

Definition flags (n : t) : Z := uint32 (shr64 (data n) 63).
Definition pos (n : t) : Z := Z.land (uint32 (shr64 (data n) 37)) 0x3FFFFFF.
Definition ksize (n : t) : Z := Z.land (uint32 (shr64 (data n) 24)) 0x1FFF.
Definition vsize (n : t) : Z := Z.land (uint32 (data n)) 0xFFFFFF.

(** [fill(flags uint32, pos uintptr, ksize, vsize int)]: the only assertion
    is the one on [pos]; the four fields are converted to uint64, shifted
    and or-ed together. *)
Definition fill (flags pos ksize vsize : Z) : outcome t :=
  _assert (pos <=? 0x3FFFFFF) "impossible page offset: %d" ;;
  Ret (mk (Z.lor (Z.lor (Z.lor (shl64 (uint64 flags) 63)
                               (shl64 (uint64 pos) 37))
                        (shl64 (uint64 ksize) 24))
                 (uint64 vsize))).

End leafPageElement.

(** *** Sorted page-id slices ([type pgids []pgid]) *)

(** Which backing array a returned slice uses: that of the receiver [a], that
    of the argument [b], or a freshly made one. *)
Inductive backing : Type := OfA | OfB | Fresh.

(** Go's built-in [copy(dst, src)]: the first [min(len(dst), len(src))]
    elements of [dst] are overwritten. *)
Definition copy (dst src : list Z) : list Z :=
  take (length dst) src ++ drop (length src) dst.

(** The [for len(lead) > 0] loop of [mergepgids].  [merged] is the slice
    [dst[:0]] grown by [append]; [follow[0]] is read by the closure given to
    [sort.Search], which calls it at least once when [lead] is not empty.
    [None] stands for a loop that has not finished within [fuel] rounds. *)
Fixpoint merge_loop (fuel : nat) (merged lead follow : list Z)
  : option (outcome (list Z * list Z)) :=
  match fuel with
  | O => None
  | S k =>
      match lead with
      | [] => Some (Ret (merged, follow))
      | _ :: _ =>
          match follow with
          | [] => Some (Fatal "index out of range")
          | f0 :: _ =>
              let n := sort.Search (length lead)
                         (fun i => f0 <? default 0 (lead !! i)) in
              let merged := merged ++ take n lead in
              if (length lead <=? n)%nat then Some (Ret (merged, follow))
              else merge_loop k merged follow (drop n lead)
          end
      end
  end.

(** [func mergepgids(dst, a, b pgids)]: the result is the content of [dst]
    afterwards ([dst] shares no memory with [a] or [b]).  Every [append]
    stays within the capacity of [dst], so it writes through to [dst]. *)
Definition mergepgids (dst a b : list Z) : option (outcome (list Z)) :=
  if (length dst <? length a + length b)%nat then
    Some (Fatal "mergepgids bad len %d < %d + %d")
  else
    match a, b with
    | [], _ => Some (Ret (copy dst b))
    | _, [] => Some (Ret (copy dst a))
    | a0 :: _, b0 :: _ =>
        let '(lead, follow) := if b0 <? a0 then (b, a) else (a, b) in
        match merge_loop (2 * (length a + length b) + 2) [] lead follow with
        | Some (Ret (merged, follow)) => Some (Ret (copy dst (merged ++ follow)))
        | Some (Fatal m) => Some (Fatal m)
        | None => None
        end
    end.

(** [func (a pgids) merge(b pgids) pgids] *)
Definition merge (a b : list Z) : option (outcome (backing * list Z)) :=
  if (length a =? 0)%nat then Some (Ret (OfB, b))
  else if (length b =? 0)%nat then Some (Ret (OfA, a))
  else
    match mergepgids (replicate (length a + length b) 0) a b with
    | Some (Ret merged) => Some (Ret (Fresh, merged))
    | Some (Fatal m) => Some (Fatal m)
    | None => None
    end.

End Page.

(** ** Collaborators of the transaction

    The bucket tree, the freelist, the memory map and the file are outside
    [page.go] and [tx.go].  The transaction sees them only through calls; each
    call is logged as an [event], and what a collaborator answers is a
    function of the log so far. *)

Inductive error : Type :=
| ErrTxClosed
| ErrTxNotWritable
| ErrFreePagesNotLoaded
| ErrOther (msg : string).

Module bucket.
(** The bucket header kept in the meta page: root page id and sequence. *)
Record t : Type := mk { root : Z; sequence : Z }.
End bucket.

Module meta.
(** Modelled from the spec: [type meta] is declared in db.go, which is not
    among the sources.  The spec lists the root bucket descriptor, the page
    high-water mark [pgid], the transaction id [txid] and the freelist-region
    selector [flid]; the three numbers are uint64. *)
Record t : Type := mk { root : bucket.t; pgid : Z; txid : Z; flid : Z }.

(** Modelled from the spec: [meta.write(p)] fills the page it is given; the two
    meta pages sit at the lowest page numbers and each commit writes the next
    one, so the page is tagged with [txid % 2]. *)
Definition write (m : t) : Page.page :=
  Page.mkPage (txid m mod 2) Page.metaPageFlag 0 0.
End meta.

Module DB.
(** What [tx.go] reads of [*DB]: configuration, whether [db.freelist] is
    non-nil, and the meta page [db.meta()] currently selects. *)
Record t : Type := mk {
  pageSize : Z;
  StrictMode : bool;
  NoSync : bool;
  freelist : bool;
  meta : meta.t
}.
End DB.

(** [type PageInfo struct] *)
Record PageInfo : Type := mkPageInfo {
  ID : Z;
  Type_ : string;
  Count : Z;
  OverflowCount : Z
}.

(** The bytes handed to [db.ops.writeAt]: a dirty page's buffer from byte
    [from] on, or the temporary buffer holding the meta page. *)
Inductive buffer : Type :=
| DirtyPage (p : Page.page) (from : Z)
| MetaBuf (m : meta.t).

Inductive event : Type :=
| EvRebalance
| EvSpill (err : option error)
| EvSetRoot (r : Z)
| EvFreelistWrite (p : Page.page) (err : option error)
| EvGrow (sz : Z) (err : option error)
| EvWriteAt (b : buffer) (len off : Z) (err : option error)
| EvFdatasync (err : option error)
| EvPoolPut (p : Page.page)
| EvCheck (errs : list string)
| EvFreelistRollback (txid : Z)
| EvFreelistReload
| EvUnlock
| EvRemoveTx
| EvHandler (h : nat).

(** What [tx.root.spill()] leaves behind: its error, the root page id of the
    root bucket, the page high-water mark after its allocations, and the
    dirty-page cache. *)
Record spilled : Type := mkSpilled {
  sp_err : option error;
  sp_root : Z;
  sp_pgid : Z;
  sp_pages : gmap Z Page.page
}.

Record env : Type := mkEnv {
  (** constants declared outside the sources *)
  maxAllocSize : Z;
  freelistRegionSize : Z;
  IgnoreNoSync : bool;
  (** bucket.go *)
  root_spill : list event -> spilled;
  (** freelist.go: [size()], [write(p)] (it fills the page in place and tags
      it as a freelist page; the answer is the count it stores in the page
      header, and its error) and [freed(id)] *)
  freelist_size : list event -> Z;
  freelist_write : list event -> Page.page -> Z * option error;
  freelist_freed : list event -> Z -> bool;
  (** db.go: [grow(sz)], [page(id)], [data != nil], [ops.writeAt],
      [fdatasync] and the errors [tx.Check()] sends on its channel *)
  db_grow : list event -> Z -> option error;
  db_page : list event -> Z -> Page.page;
  db_data : list event -> bool;
  ops_writeAt : list event -> buffer -> Z -> Z -> option error;
  fdatasync : list event -> option error;
  tx_Check : list event -> list string
}.

(** ** tx.go *)

Module Tx.
Import Page.

(** [type Tx struct].  [db] says whether [tx.db] is non-nil; [meta], [root]
    (the header [tx.root.bucket] points to) and [pages] are [None] when the Go
    field is nil.  Of [stats] only the write counter is kept: the timers read
    the clock.  A commit handler is known by its number. *)
Record t : Type := mk {
  writable : bool;
  managed : bool;
  db : bool;
  meta : option meta.t;
  root : option bucket.t;
  pages : option (gmap Z page);
  stats_Write : Z;
  commitHandlers : list nat
}.

Record state : Type := mkState {
  tx : t;
  database : DB.t;
  log : list event
}.

(** A method of the transaction: it may not finish within the fuel of its
    loops ([None]), and otherwise ends in a value or a panic, with the state
    it has reached. *)
Definition M (A : Type) : Type := state -> option (outcome A * state).

#[export] Instance M_ret : MRet M := fun _ a s => Some (Ret a, s).
#[export] Instance M_bind : MBind M := fun _ _ k m s =>
  match m s with
  | Some (Ret a, s') => k a s'
  | Some (Fatal msg, s') => Some (Fatal msg, s')
  | None => None
  end.

Definition get : M state := fun s => Some (Ret s, s).
Definition modify (f : t -> t) : M unit :=
  fun s => Some (Ret tt, mkState (f (tx s)) (database s) (log s)).
Definition emit (e : event) : M unit :=
  fun s => Some (Ret tt, mkState (tx s) (database s) (log s ++ [e])).
Definition panic {A} (msg : string) : M A := fun s => Some (Fatal msg, s).
Definition diverge {A} : M A := fun _ => None.
Definition lift {A} (o : outcome A) : M A := fun s => Some (o, s).

Definition set_meta (m : option meta.t) (x : t) : t :=
  mk (writable x) (managed x) (db x) m (root x) (pages x)
     (stats_Write x) (commitHandlers x).
Definition set_root (r : option bucket.t) (x : t) : t :=
  mk (writable x) (managed x) (db x) (meta x) r (pages x)
     (stats_Write x) (commitHandlers x).
Definition set_pages (ps : option (gmap Z page)) (x : t) : t :=
  mk (writable x) (managed x) (db x) (meta x) (root x) ps
     (stats_Write x) (commitHandlers x).
Definition set_db (b : bool) (x : t) : t :=
  mk (writable x) (managed x) b (meta x) (root x) (pages x)
     (stats_Write x) (commitHandlers x).

(** Reading through [tx.meta], [tx.root.bucket] or into [tx.pages]. *)
Definition deref_meta : M meta.t :=
  s ← get;
  match meta (tx s) with
  | Some m => mret m
  | None => panic "invalid memory address or nil pointer dereference"
  end.
Definition deref_root : M bucket.t :=
  s ← get;
  match root (tx s) with
  | Some b => mret b
  | None => panic "invalid memory address or nil pointer dereference"
  end.

(** [tx.stats.IncWrite(1)] *)
Definition IncWrite : M unit :=
  modify (fun x => mk (writable x) (managed x) (db x) (meta x) (root x)
                      (pages x) (int64 (stats_Write x + 1)) (commitHandlers x)).

Section WithEnv.
Variable E : env.

(** [func (tx *Tx) init(db *DB)] *)
Definition init : M unit :=
  s ← get;
  (* tx.db = db; tx.pages = nil *)
  modify (fun x => set_pages None (set_db true x));;
  (* tx.meta = &meta{}; db.meta().copy(tx.meta) *)
  let m := DB.meta (database s) in
  modify (set_meta (Some m));;
  (* tx.root = newBucket(tx); *tx.root.bucket = tx.meta.root *)
  modify (set_root (Some (meta.root m)));;
  if writable (tx s) then
    modify (set_pages (Some ∅));;
    m ← deref_meta;
    modify (set_meta (Some (meta.mk (meta.root m) (meta.pgid m)
                                    (uint64 (meta.txid m + 1)) (meta.flid m))));;
    m ← deref_meta;
    modify (set_meta (Some (meta.mk (meta.root m) (meta.pgid m)
                                    (meta.txid m) (uint64 (meta.flid m + 1)))))
  else mret tt.

(** [func (tx *Tx) OnCommit(fn func())] *)
Definition OnCommit (fn : nat) : M unit :=
  modify (fun x => mk (writable x) (managed x) (db x) (meta x) (root x)
                      (pages x) (stats_Write x) (commitHandlers x ++ [fn])).

(** [func (tx *Tx) close()]: a writable transaction drops [db.rwtx] and
    unlocks [db.rwlock] (then merges its statistics), a read-only one is
    removed from the database's list; then every reference is cleared. *)
Definition close : M unit :=
  s ← get;
  if negb (db (tx s)) then mret tt
  else
    (if writable (tx s) then emit EvUnlock else emit EvRemoveTx);;
    modify (fun x => set_pages None (set_root None (set_meta None (set_db false x)))).

(** [func (tx *Tx) rollback()] *)
Definition rollback : M unit :=
  s ← get;
  if negb (db (tx s)) then mret tt
  else
    (if writable (tx s) then
       m ← deref_meta;
       emit (EvFreelistRollback (meta.txid m));;
       s ← get;
       if db_data E (log s) then emit EvFreelistReload else mret tt
     else mret tt);;
    close.

(** [func (tx *Tx) nonPhysicalRollback()] *)
Definition nonPhysicalRollback : M unit :=
  s ← get;
  if negb (db (tx s)) then mret tt
  else
    (if writable (tx s) then
       m ← deref_meta;
       emit (EvFreelistRollback (meta.txid m))
     else mret tt);;
    close.

(** [func (tx *Tx) Rollback() error] *)
Definition Rollback : M (option error) :=
  s ← get;
  lift (_assert (negb (managed (tx s))) "managed tx rollback not allowed");;
  if negb (db (tx s)) then mret (Some ErrTxClosed)
  else nonPhysicalRollback;; mret None.

(** [tx.db.ops.writeAt(buf, offset)], with what the file answers. *)
Definition writeAt (b : buffer) (len off : Z) : M (option error) :=
  s ← get;
  let r := ops_writeAt E (log s) b len off in
  emit (EvWriteAt b len off r);;
  mret r.

(** [fdatasync(tx.db)] unless the database skips syncs. *)
Definition sync : M (option error) :=
  s ← get;
  if negb (DB.NoSync (database s)) || IgnoreNoSync E then
    let r := fdatasync E (log s) in
    emit (EvFdatasync r);;
    mret r
  else mret None.

(** [func (tx *Tx) commitFreelist() error].  Nothing is logged between the
    two calls of [freelist.size()], so both see the same size. *)
Definition commitFreelist : M (option error) :=
  s ← get;
  (if db (tx s) && DB.freelist (database s) then mret tt
   else panic "invalid memory address or nil pointer dereference");;
  let pageSize := DB.pageSize (database s) in
  let size := freelist_size E (log s) in
  lift (_assert (size <? int64 (freelistRegionSize E - pageSize))
                "fatal: freelist too large");;
  (* pages, and the buffer: one from the pool, or make([]byte, pages*pageSize) *)
  npages ←
    (if size <? pageSize then mret 1
     else if pageSize =? 0 then panic "integer divide by zero"
     else
       let n := int64 (Z.quot size pageSize + 1) in
       if int64 (n * pageSize) <? 0 then panic "makeslice: len out of range"
       else if int64 (n * pageSize) =? 0 then panic "index out of range"
       else mret n);
  m ← deref_meta;
  (if uint64 pageSize =? 0 then panic "integer divide by zero" else mret tt);;
  let p := mkPage
             (uint64 (2 + uint64 ((meta.flid m mod 2) * uint64 (freelistRegionSize E))
                            / uint64 pageSize))
             0 0 (uint32 (uint32 npages - 1)) in
  let '(n, err) := freelist_write E (log s) p in
  let p := mkPage (id p) (Z.lor (flags p) freelistPageFlag) n (overflow p) in
  emit (EvFreelistWrite p err);;
  match err with
  | Some e => rollback;; mret (Some e)
  | None =>
      s ← get;
      match pages (tx s) with
      | None => panic "assignment to entry in nil map"
      | Some ps => modify (set_pages (Some (<[id p := p]> ps)));; mret None
      end
  end.

(** [sort.Sort(pages)]: the library's sort, driven by [pages.Less]; an element
    stays before another unless [Less] puts it after. *)
Definition sort_pages (ps : list page) : list page :=
  merge_sort not_after ps.

(** The inner [for] of [write]: one page in chunks of at most
    [maxAllocSize - 1] bytes. *)
Fixpoint write_chunks (fuel : nat) (p : page) (rem offset written : Z)
  : M (option error) :=
  match fuel with
  | O => diverge
  | S k =>
      let sz := if maxAllocSize E - 1 <? rem then maxAllocSize E - 1 else rem in
      r ← writeAt (DirtyPage p written) (int64 sz) offset;
      match r with
      | Some e => mret (Some e)
      | None =>
          IncWrite;;
          let rem := uint64 (rem - sz) in
          if rem =? 0 then mret None
          else write_chunks k p rem (int64 (offset + int64 sz))
                            (uint64 (written + uint64 sz))
      end
  end.

Definition write_page (p : page) : M (option error) :=
  s ← get;
  let pageSize := DB.pageSize (database s) in
  let rem := uint64 ((uint64 (overflow p) + 1) * uint64 pageSize) in
  let offset := int64 (int64 (id p) * int64 pageSize) in
  write_chunks (S (Z.to_nat (rem / (maxAllocSize E - 1)))) p rem offset 0.

Fixpoint write_pages (ps : list page) : M (option error) :=
  match ps with
  | [] => mret None
  | p :: ps =>
      r ← write_page p;
      match r with
      | Some e => mret (Some e)
      | None => write_pages ps
      end
  end.

(** The last loop of [write]: single-page buffers go back to the pool. *)
Fixpoint pool_pages (ps : list page) : M unit :=
  match ps with
  | [] => mret tt
  | p :: ps =>
      (if int64 (overflow p) =? 0 then emit (EvPoolPut p) else mret tt);;
      pool_pages ps
  end.

(** [func (tx *Tx) write() error].  Ranging over a nil map visits nothing. *)
Definition write : M (option error) :=
  s ← get;
  let ps := match pages (tx s) with
            | Some m => (map_to_list m).*2
            | None => []
            end in
  modify (set_pages (Some ∅));;
  let ps := sort_pages ps in
  r ← write_pages ps;
  match r with
  | Some e => mret (Some e)
  | None =>
      r ← sync;
      match r with
      | Some e => mret (Some e)
      | None => pool_pages ps;; mret None
      end
  end.

(** [func (tx *Tx) writeMeta() error] *)
Definition writeMeta : M (option error) :=
  s ← get;
  let pageSize := DB.pageSize (database s) in
  m ← deref_meta;
  let p := meta.write m in
  r ← writeAt (MetaBuf m) pageSize (int64 (int64 (id p) * int64 pageSize));
  match r with
  | Some e => mret (Some e)
  | None =>
      r ← sync;
      match r with
      | Some e => mret (Some e)
      | None => IncWrite;; mret None
      end
  end.

Fixpoint run_handlers (hs : list nat) : M unit :=
  match hs with
  | [] => mret tt
  | h :: hs => emit (EvHandler h);; run_handlers hs
  end.

(** [func (tx *Tx) Commit() error] *)
Definition Commit : M (option error) :=
  s ← get;
  lift (_assert (negb (managed (tx s))) "managed tx commit not allowed");;
  if negb (db (tx s)) then mret (Some ErrTxClosed)
  else if negb (writable (tx s)) then mret (Some ErrTxNotWritable)
  else
    (* tx.root.rebalance() *)
    emit EvRebalance;;
    m ← deref_meta;
    let opgid := meta.pgid m in
    (* tx.root.spill() *)
    s ← get;
    let sp := root_spill E (log s) in
    b ← deref_root;
    modify (set_root (Some (bucket.mk (sp_root sp) (bucket.sequence b))));;
    modify (set_meta (Some (meta.mk (meta.root m) (sp_pgid sp)
                                    (meta.txid m) (meta.flid m))));;
    modify (set_pages (Some (sp_pages sp)));;
    emit (EvSpill (sp_err sp));;
    match sp_err sp with
    | Some e => rollback;; mret (Some e)
    | None =>
        (* tx.meta.root.root = tx.root.root *)
        m ← deref_meta;
        b ← deref_root;
        modify (set_meta (Some (meta.mk (bucket.mk (bucket.root b)
                                                   (bucket.sequence (meta.root m)))
                                        (meta.pgid m) (meta.txid m) (meta.flid m))));;
        emit (EvSetRoot (bucket.root b));;
        r ← commitFreelist;
        match r with
        | Some e => mret (Some e)
        | None =>
            m ← deref_meta;
            s ← get;
            r ← (if opgid <? meta.pgid m then
                   let sz := int64 (int64 (uint64 (meta.pgid m + 1))
                                    * DB.pageSize (database s)) in
                   let r := db_grow E (log s) sz in
                   emit (EvGrow sz r);; mret r
                 else mret None);
            match r with
            | Some e => rollback;; mret (Some e)
            | None =>
                r ← write;
                match r with
                | Some e => rollback;; mret (Some e)
                | None =>
                    s ← get;
                    (if DB.StrictMode (database s) then
                       let errs := tx_Check E (log s) in
                       emit (EvCheck errs);;
                       if (0 <? length errs)%nat then
                         panic ("check fail: " +:+ String.concat (String "010"%char EmptyString) errs)
                       else mret tt
                     else mret tt);;
                    r ← writeMeta;
                    match r with
                    | Some e => rollback;; mret (Some e)
                    | None =>
                        close;;
                        s ← get;
                        run_handlers (commitHandlers (tx s));;
                        mret None
                    end
                end
            end
        end
    end.

(** [func (tx *Tx) Page(id int)], returning a [*PageInfo] and an [error] *)
Definition Page (n : Z) : M (option PageInfo * option error) :=
  s ← get;
  if negb (db (tx s)) then mret (None, Some ErrTxClosed)
  else
    m ← deref_meta;
    if meta.pgid m <=? uint64 n then mret (None, None)
    else if negb (DB.freelist (database s)) then
      mret (None, Some ErrFreePagesNotLoaded)
    else
      let p := db_page E (log s) (uint64 n) in
      let typ := if freelist_freed E (log s) (uint64 n) then "free" else typ p in
      mret (Some (mkPageInfo n typ (int64 (count p)) (int64 (overflow p))), None).

(** [func (tx *Tx) page(id pgid) *page]: the dirty-page cache first (reading
    a nil map finds nothing), then the memory map, which is reached through
    [tx.db]. *)
Definition page_ (i : Z) : M page :=
  s ← get;
  match pages (tx s) ≫= (.!! i) with
  | Some p => lift (fastCheck p i);; mret p
  | None =>
      (if db (tx s) then mret tt
       else panic "invalid memory address or nil pointer dereference");;
      let p := db_page E (log s) i in
      lift (fastCheck p i);; mret p
  end.

(** [func (tx *Tx) ID() int], [func (tx *Tx) Size() int64] and
    [func (tx *Tx) Writable() bool]: the first two read through [tx.meta]
    (and [Size] then through [tx.db]) without a check for nil. *)
Definition ID : M Z :=
  m ← deref_meta;
  mret (int64 (meta.txid m)).

Definition Size : M Z :=
  m ← deref_meta;
  s ← get;
  (if db (tx s) then mret tt
   else panic "invalid memory address or nil pointer dereference");;
  mret (int64 (int64 (meta.pgid m) * int64 (DB.pageSize (database s)))).

Definition Writable : M bool :=
  s ← get;
  mret (writable (tx s)).

End WithEnv.
End Tx.

(** ** Transaction statistics *)

Module TxStats.

(** [type TxStats struct]: twelve counters, each an int64 ([time.Duration]
    is one too). *)
Record t : Type := mk {
  PageCount : Z;
  PageAlloc : Z;
  CursorCount : Z;
  NodeCount : Z;
  NodeDeref : Z;
  Rebalance : Z;
  RebalanceTime : Z;
  Split : Z;
  Spill : Z;
  SpillTime : Z;
  Write : Z;
  WriteTime : Z
}.

(** [atomic.AddInt64(&x, delta)]: the new value, wrapped to 64 bits. *)
Definition AddInt64 (x delta : Z) : Z := int64 (x + delta).

(** The getters load a field; [atomicLoadDuration] loads it as an int64. *)
Definition GetPageCount (s : t) : Z := PageCount s.
Definition GetPageAlloc (s : t) : Z := PageAlloc s.
Definition GetCursorCount (s : t) : Z := CursorCount s.
Definition GetNodeCount (s : t) : Z := NodeCount s.
Definition GetNodeDeref (s : t) : Z := NodeDeref s.
Definition GetRebalance (s : t) : Z := Rebalance s.
Definition GetRebalanceTime (s : t) : Z := RebalanceTime s.
Definition GetSplit (s : t) : Z := Split s.
Definition GetSpill (s : t) : Z := Spill s.
Definition GetSpillTime (s : t) : Z := SpillTime s.
Definition GetWrite (s : t) : Z := Write s.
Definition GetWriteTime (s : t) : Z := WriteTime s.

(** The incrementers add to a field and return the new value with the
    updated record. *)
Definition IncPageCount (delta : Z) (s : t) : Z * t :=
  let v := AddInt64 (PageCount s) delta in
  (v, mk v (PageAlloc s) (CursorCount s) (NodeCount s) (NodeDeref s)
         (Rebalance s) (RebalanceTime s) (Split s) (Spill s) (SpillTime s)
         (Write s) (WriteTime s)).
Definition IncPageAlloc (delta : Z) (s : t) : Z * t :=
  let v := AddInt64 (PageAlloc s) delta in
  (v, mk (PageCount s) v (CursorCount s) (NodeCount s) (NodeDeref s)
         (Rebalance s) (RebalanceTime s) (Split s) (Spill s) (SpillTime s)
         (Write s) (WriteTime s)).
Definition IncCursorCount (delta : Z) (s : t) : Z * t :=
  let v := AddInt64 (CursorCount s) delta in
  (v, mk (PageCount s) (PageAlloc s) v (NodeCount s) (NodeDeref s)
         (Rebalance s) (RebalanceTime s) (Split s) (Spill s) (SpillTime s)
         (Write s) (WriteTime s)).
Definition IncNodeCount (delta : Z) (s : t) : Z * t :=
  let v := AddInt64 (NodeCount s) delta in
  (v, mk (PageCount s) (PageAlloc s) (CursorCount s) v (NodeDeref s)
         (Rebalance s) (RebalanceTime s) (Split s) (Spill s) (SpillTime s)
         (Write s) (WriteTime s)).
Definition IncNodeDeref (delta : Z) (s : t) : Z * t :=
  let v := AddInt64 (NodeDeref s) delta in
  (v, mk (PageCount s) (PageAlloc s) (CursorCount s) (NodeCount s) v
         (Rebalance s) (RebalanceTime s) (Split s) (Spill s) (SpillTime s)
         (Write s) (WriteTime s)).
Definition IncRebalance (delta : Z) (s : t) : Z * t :=
  let v := AddInt64 (Rebalance s) delta in
  (v, mk (PageCount s) (PageAlloc s) (CursorCount s) (NodeCount s) (NodeDeref s)
         v (RebalanceTime s) (Split s) (Spill s) (SpillTime s)
         (Write s) (WriteTime s)).
Definition IncRebalanceTime (delta : Z) (s : t) : Z * t :=
  let v := AddInt64 (RebalanceTime s) delta in
  (v, mk (PageCount s) (PageAlloc s) (CursorCount s) (NodeCount s) (NodeDeref s)
         (Rebalance s) v (Split s) (Spill s) (SpillTime s)
         (Write s) (WriteTime s)).
Definition IncSplit (delta : Z) (s : t) : Z * t :=
  let v := AddInt64 (Split s) delta in
  (v, mk (PageCount s) (PageAlloc s) (CursorCount s) (NodeCount s) (NodeDeref s)
         (Rebalance s) (RebalanceTime s) v (Spill s) (SpillTime s)
         (Write s) (WriteTime s)).
Definition IncSpill (delta : Z) (s : t) : Z * t :=
  let v := AddInt64 (Spill s) delta in
  (v, mk (PageCount s) (PageAlloc s) (CursorCount s) (NodeCount s) (NodeDeref s)
         (Rebalance s) (RebalanceTime s) (Split s) v (SpillTime s)
         (Write s) (WriteTime s)).
Definition IncSpillTime (delta : Z) (s : t) : Z * t :=
  let v := AddInt64 (SpillTime s) delta in
  (v, mk (PageCount s) (PageAlloc s) (CursorCount s) (NodeCount s) (NodeDeref s)
         (Rebalance s) (RebalanceTime s) (Split s) (Spill s) v
         (Write s) (WriteTime s)).
Definition IncWrite (delta : Z) (s : t) : Z * t :=
  let v := AddInt64 (Write s) delta in
  (v, mk (PageCount s) (PageAlloc s) (CursorCount s) (NodeCount s) (NodeDeref s)
         (Rebalance s) (RebalanceTime s) (Split s) (Spill s) (SpillTime s)
         v (WriteTime s)).
Definition IncWriteTime (delta : Z) (s : t) : Z * t :=
  let v := AddInt64 (WriteTime s) delta in
  (v, mk (PageCount s) (PageAlloc s) (CursorCount s) (NodeCount s) (NodeDeref s)
         (Rebalance s) (RebalanceTime s) (Split s) (Spill s) (SpillTime s)
         (Write s) v).

(** [func (s *TxStats) add(other *TxStats)]: twelve increments in a row, the
    values they return dropped. *)
Definition add (s other : t) : t :=
  let s := snd (IncPageCount (GetPageCount other) s) in
  let s := snd (IncPageAlloc (GetPageAlloc other) s) in
  let s := snd (IncCursorCount (GetCursorCount other) s) in
  let s := snd (IncNodeCount (GetNodeCount other) s) in
  let s := snd (IncNodeDeref (GetNodeDeref other) s) in
  let s := snd (IncRebalance (GetRebalance other) s) in
  let s := snd (IncRebalanceTime (GetRebalanceTime other) s) in
  let s := snd (IncSplit (GetSplit other) s) in
  let s := snd (IncSpill (GetSpill other) s) in
  let s := snd (IncSpillTime (GetSpillTime other) s) in
  let s := snd (IncWrite (GetWrite other) s) in
  snd (IncWriteTime (GetWriteTime other) s).

(** [func (s *TxStats) Sub(other *TxStats) TxStats]: int64 subtraction,
    field by field. *)
Definition Sub (s other : t) : t :=
  mk (int64 (GetPageCount s - GetPageCount other))
     (int64 (GetPageAlloc s - GetPageAlloc other))
     (int64 (GetCursorCount s - GetCursorCount other))
     (int64 (GetNodeCount s - GetNodeCount other))
     (int64 (GetNodeDeref s - GetNodeDeref other))
     (int64 (GetRebalance s - GetRebalance other))
     (int64 (GetRebalanceTime s - GetRebalanceTime other))
     (int64 (GetSplit s - GetSplit other))
     (int64 (GetSpill s - GetSpill other))
     (int64 (GetSpillTime s - GetSpillTime other))
     (int64 (GetWrite s - GetWrite other))
     (int64 (GetWriteTime s - GetWriteTime other)).

End TxStats.

(** ** A sample database

    A 4 KiB page size and 1 MiB freelist regions (pages 2..257 and 258..513),
    collaborators that never fail, and a spill that leaves two dirty pages. *)

Module Sample.
Import Page.

Definition spill_pages : gmap Z page :=
  <[515 := mkPage 515 leafPageFlag 2 1]>
    (<[514 := mkPage 514 branchPageFlag 2 0]> ∅).

Definition quiet : env := {|
  maxAllocSize := 0x7FFFFFFF;
  freelistRegionSize := 0x100000;
  IgnoreNoSync := false;
  root_spill := fun _ => mkSpilled None 514 517 spill_pages;
  freelist_size := fun _ => 24;
  freelist_write := fun _ _ => (2, None);
  freelist_freed := fun _ i => i =? 300;
  db_grow := fun _ _ => None;
  db_page := fun _ i => mkPage i (if i <? 2 then metaPageFlag else leafPageFlag) 0 0;
  db_data := fun _ => true;
  ops_writeAt := fun _ _ _ _ => None;
  fdatasync := fun _ => None;
  tx_Check := fun _ => []
|}.

(** The same, with a freelist that serializes to exactly
    [freelistRegionSize - pageSize] bytes. *)
Definition full_freelist : env := {|
  maxAllocSize := maxAllocSize quiet;
  freelistRegionSize := freelistRegionSize quiet;
  IgnoreNoSync := IgnoreNoSync quiet;
  root_spill := root_spill quiet;
  freelist_size := fun _ => 0x100000 - 4096;
  freelist_write := freelist_write quiet;
  freelist_freed := freelist_freed quiet;
  db_grow := db_grow quiet;
  db_page := db_page quiet;
  db_data := db_data quiet;
  ops_writeAt := ops_writeAt quiet;
  fdatasync := fdatasync quiet;
  tx_Check := tx_Check quiet
|}.

Definition meta0 : meta.t := meta.mk (bucket.mk 3 0) 514 7 7.
Definition db0 : DB.t := DB.mk 4096 true false true meta0.

(** A transaction before [init], and the state [db.Begin] starts from. *)
Definition blank (writable : bool) : Tx.t :=
  Tx.mk writable false false None None None 0 [].
Definition begin (writable : bool) : Tx.state :=
  Tx.mkState (blank writable) db0 [].

(** An open transaction as [init] leaves it, with two commit handlers. *)
Definition opened (writable : bool) : Tx.state :=
  Tx.mkState
    (Tx.mk writable false true
           (Some (if writable then meta.mk (bucket.mk 3 0) 514 8 8 else meta0))
           (Some (bucket.mk 3 0))
           (if writable then Some ∅ else None) 0 [1%nat; 2%nat])
    db0 [].

(** The writable transaction after a spill: two dirty pages, the second with
    one overflow page. *)
Definition dirty : Tx.state :=
  Tx.mkState (Tx.set_pages (Some spill_pages) (Tx.tx (opened true))) db0 [].

(** The quiet collaborators with a transfer limit of 3000 bytes. *)
Definition small_chunks : env := {|
  maxAllocSize := 3001;
  freelistRegionSize := freelistRegionSize quiet;
  IgnoreNoSync := IgnoreNoSync quiet;
  root_spill := root_spill quiet;
  freelist_size := freelist_size quiet;
  freelist_write := freelist_write quiet;
  freelist_freed := freelist_freed quiet;
  db_grow := db_grow quiet;
  db_page := db_page quiet;
  db_data := db_data quiet;
  ops_writeAt := ops_writeAt quiet;
  fdatasync := fdatasync quiet;
  tx_Check := tx_Check quiet
|}.

(** The quiet collaborators with a file that fails from the second write
    of dirty pages on (the sixth logged call). *)
Definition disk_full : env := {|
  maxAllocSize := maxAllocSize quiet;
  freelistRegionSize := freelistRegionSize quiet;
  IgnoreNoSync := IgnoreNoSync quiet;
  root_spill := root_spill quiet;
  freelist_size := freelist_size quiet;
  freelist_write := freelist_write quiet;
  freelist_freed := freelist_freed quiet;
  db_grow := db_grow quiet;
  db_page := db_page quiet;
  db_data := db_data quiet;
  ops_writeAt := fun l _ _ _ =>
    if (5 <? length l)%nat then Some (ErrOther "no space left on device")
    else None;
  fdatasync := fdatasync quiet;
  tx_Check := tx_Check quiet
|}.

End Sample.

(** * Properties *)

(** ** Machine arithmetic *)

Lemma uint64_small z : 0 <= z < 2 ^ 64 -> uint64 z = z.
Proof. intros H. unfold uint64. apply Z.mod_small. exact H. Qed.

Lemma uint32_small z : 0 <= z < 2 ^ 32 -> uint32 z = z.
Proof. intros H. unfold uint32. apply Z.mod_small. exact H. Qed.

Lemma int64_small z : - 2 ^ 63 <= z < 2 ^ 63 -> int64 z = z.
Proof. intros H. unfold int64. rewrite Z.mod_small; lia. Qed.

Lemma land_shifted_small a b n :
  0 <= n -> 0 <= b < 2 ^ n -> Z.land (a * 2 ^ n) b = 0.
Proof.
  intros Hn Hb. apply Z.bits_inj'. intros i Hi.
  rewrite Z.land_spec, Z.bits_0.
  destruct (Z.lt_ge_cases i n) as [Hlt | Hge].
  - rewrite Z.mul_pow2_bits_low by lia. reflexivity.
  - rewrite andb_comm.
    rewrite <- (Z.mod_small b (2 ^ n)) by lia.
    rewrite Z.mod_pow2_bits_high by lia. reflexivity.
Qed.

Lemma lor_shifted_small a b n :
  0 <= n -> 0 <= b < 2 ^ n -> Z.lor (a * 2 ^ n) b = a * 2 ^ n + b.
Proof.
  intros Hn Hb. symmetry. apply Z.add_nocarry_lor.
  apply land_shifted_small; assumption.
Qed.

Lemma div_split a b n :
  0 <= n -> 0 <= b < 2 ^ n -> (a * 2 ^ n + b) / 2 ^ n = a.
Proof.
  intros Hn Hb. rewrite Z.add_comm, Z.div_add by lia.
  rewrite Z.div_small by lia. reflexivity.
Qed.

Lemma mod_split a b n :
  0 <= n -> 0 <= b < 2 ^ n -> (a * 2 ^ n + b) mod 2 ^ n = b.
Proof.
  intros Hn Hb. rewrite Z.add_comm, Z.mod_add by lia.
  apply Z.mod_small. exact Hb.
Qed.

Lemma mod_mod_pow2 z m n :
  0 <= n <= m -> (z mod 2 ^ m) mod 2 ^ n = z mod 2 ^ n.
Proof.
  intros H. apply Z.mod_mod_divide.
  exists (2 ^ (m - n)). rewrite <- Z.pow_add_r by lia. f_equal. lia.
Qed.

Lemma land_mask z n : 0 <= n -> Z.land z (2 ^ n - 1) = z mod 2 ^ n.
Proof.
  intros Hn. rewrite <- Z.land_ones by exact Hn.
  rewrite Z.ones_equiv, Z.sub_1_r. reflexivity.
Qed.

(** ** The leaf element *)

Module LeafFacts.
Import Page Page.leafPageElement.

(** Within the field widths, the packed word is the sum of the four fields at
    their positions. *)
Lemma fill_data f p k v :
  0 <= f <= 1 -> 0 <= p <= 2 ^ 26 - 1 -> 0 <= k <= 2 ^ 13 - 1 ->
  0 <= v <= 2 ^ 24 - 1 ->
  fill f p k v = Ret (mk (f * 2 ^ 63 + p * 2 ^ 37 + k * 2 ^ 24 + v)).
Proof.
  intros Hf Hp Hk Hv. unfold fill, _assert.
  replace (p <=? 0x3FFFFFF) with true by (symmetry; apply Z.leb_le; lia).
  cbn [mbind outcome_bind]. do 2 f_equal.
  unfold shl64. rewrite !Z.shiftl_mul_pow2 by lia.
  rewrite (uint64_small f), (uint64_small p), (uint64_small k),
    (uint64_small v) by lia.
  rewrite !uint64_small by lia.
  rewrite (lor_shifted_small f (p * 2 ^ 37) 63) by lia.
  replace (f * 2 ^ 63 + p * 2 ^ 37) with ((f * 2 ^ 26 + p) * 2 ^ 37) by lia.
  rewrite (lor_shifted_small _ (k * 2 ^ 24) 37) by lia.
  replace ((f * 2 ^ 26 + p) * 2 ^ 37 + k * 2 ^ 24)
    with (((f * 2 ^ 26 + p) * 2 ^ 13 + k) * 2 ^ 24) by lia.
  rewrite (lor_shifted_small _ v 24) by lia.
  lia.
Qed.

Lemma accessors_of_sum f p k v :
  0 <= f <= 1 -> 0 <= p <= 2 ^ 26 - 1 -> 0 <= k <= 2 ^ 13 - 1 ->
  0 <= v <= 2 ^ 24 - 1 ->
  let n := mk (f * 2 ^ 63 + p * 2 ^ 37 + k * 2 ^ 24 + v) in
  flags n = f /\ pos n = p /\ ksize n = k /\ vsize n = v.
Proof.
  intros Hf Hp Hk Hv n. subst n.
  unfold flags, pos, ksize, vsize, shr64, uint32. cbn [data].
  change 0x3FFFFFF with (2 ^ 26 - 1). change 0x1FFF with (2 ^ 13 - 1).
  change 0xFFFFFF with (2 ^ 24 - 1).
  rewrite !land_mask by lia. rewrite !Z.shiftr_div_pow2 by lia.
  rewrite !mod_mod_pow2 by lia.
  set (x := f * 2 ^ 63 + p * 2 ^ 37 + k * 2 ^ 24 + v).
  repeat split.
  - replace x with (f * 2 ^ 63 + (p * 2 ^ 37 + k * 2 ^ 24 + v)) by (subst x; lia).
    rewrite div_split by lia. apply Z.mod_small. lia.
  - replace x with ((f * 2 ^ 26 + p) * 2 ^ 37 + (k * 2 ^ 24 + v)) by (subst x; lia).
    rewrite div_split by lia. apply mod_split; lia.
  - replace x with (((f * 2 ^ 26 + p) * 2 ^ 13 + k) * 2 ^ 24 + v) by (subst x; lia).
    rewrite div_split by lia. apply mod_split; lia.
  - replace x with (((f * 2 ^ 26 + p) * 2 ^ 13 + k) * 2 ^ 24 + v) by (subst x; lia).
    apply mod_split; lia.
Qed.

(** C2.  For flags 0 or 1, a byte offset of at most 2^26-1, a key length of
    at most 2^13-1 and a value length of at most 2^24-1 (lengths and offsets
    are not negative), [fill] succeeds and the accessors [flags], [pos],
    [ksize] and [vsize] of the packed element give back the four inputs. *)
Theorem fill_roundtrip f p k v :
  0 <= f <= 1 -> 0 <= p <= 2 ^ 26 - 1 -> 0 <= k <= 2 ^ 13 - 1 ->
  0 <= v <= 2 ^ 24 - 1 ->
  exists n, fill f p k v = Ret n /\
            flags n = f /\ pos n = p /\ ksize n = k /\ vsize n = v.
Proof.
  intros Hf Hp Hk Hv. eexists. split.
  - apply fill_data; assumption.
  - apply accessors_of_sum; assumption.
Qed.

Lemma fill_roundtrip_witness :
  exists n, fill 1 67108863 8191 16777215 = Ret n /\
            flags n = 1 /\ pos n = 67108863 /\ ksize n = 8191 /\
            vsize n = 16777215.
Proof. apply (fill_roundtrip 1 67108863 8191 16777215); lia. Defined.

(** C1.  [fill] asserts the bound on [pos] only.  A key length of 8192 and a
    value length of 16 MiB + 1 are both accepted: the call returns an element,
    and the bits that do not fit land in the neighbouring field (the key
    length 8192 reads back as key length 0 and offset 1; the value length
    2^24+1 reads back as value length 1 and key length 1). *)
Theorem fill_accepts_oversized_sizes :
  (exists n, fill 0 0 8192 0 = Ret n /\ ksize n = 0 /\ pos n = 1) /\
  (exists n, fill 0 0 0 16777217 = Ret n /\ vsize n = 1 /\ ksize n = 1).
Proof.
  split; eexists; (split; [vm_compute; reflexivity | split; vm_compute; reflexivity]).
Qed.

(** The assertion [fill] does have: an offset above 2^26-1 is fatal. *)
Lemma fill_rejects_large_pos f p k v :
  2 ^ 26 - 1 < p -> fill f p k v = Fatal "assertion failed: impossible page offset: %d".
Proof.
  intros Hp. unfold fill, _assert.
  replace (p <=? 0x3FFFFFF) with false by (symmetry; apply Z.leb_gt; lia).
  reflexivity.
Qed.

End LeafFacts.

(** ** Binary search and the merge of page-id slices *)

Module SearchFacts.
Import sort.

(** On a predicate that is monotone below [n], the binary search keeps every
    index below the result false and every index from the result on true. *)
Lemma Search_loop_spec (n : nat) (f : nat -> bool) (i j : nat) :
  (forall a b, a <= b -> b < n -> f a = true -> f b = true)%nat ->
  (i <= j)%nat -> (j <= n)%nat ->
  (forall k, k < i -> f k = false)%nat ->
  (forall k, j <= k -> k < n -> f k = true)%nat ->
  (i <= Search_loop f i j <= j)%nat /\
  (forall k, k < Search_loop f i j -> f k = false)%nat /\
  (forall k, Search_loop f i j <= k -> k < n -> f k = true)%nat.
Proof.
  intros Hmono. funelim (Search_loop f i j); intros Hij Hjn Hlo Hhi.
  - set (h := Nat.div2 (i + j)) in *.
    assert (Hh : (i <= h < j)%nat).
    { subst h. pose proof (Nat.div2_odd (i + j)) as Hd.
      destruct (Nat.odd (i + j)); simpl in Hd; lia. }
    clear Heqcall. cbn zeta. fold h.
    destruct (f h) eqn:Hfh.
    + destruct (H n Hmono) as (Hb & Hl & Hu); try lia; try assumption.
      { intros k Hk1 Hk2. apply (Hmono h k); [lia | lia | exact Hfh]. }
      repeat split; try lia; assumption.
    + destruct (H0 n Hmono) as (Hb & Hl & Hu); try lia; try assumption.
      { intros k Hk. destruct (f k) eqn:Hfk; [| reflexivity].
        rewrite <- Hfh. symmetry. apply (Hmono k h); [lia | lia | exact Hfk]. }
      repeat split; try lia; assumption.
  - assert (i = j) by lia. subst j.
    repeat split; try lia; assumption.
Qed.

End SearchFacts.

Module MergeFacts.
Import Page sort SearchFacts.

Lemma sorted_lookup_le (l : list Z) (i j : nat) (a b : Z) :
  StronglySorted Z.lt l -> (i <= j)%nat ->
  l !! i = Some a -> l !! j = Some b -> a <= b.
Proof.
  intros Hs Hij Ha Hb.
  destruct (decide (i = j)) as [-> | Hne].
  - rewrite Ha in Hb. injection Hb as ->. lia.
  - rewrite <- (take_drop j l) in Hs.
    apply Z.lt_le_incl.
    apply (StronglySorted_app_1_elem_of _ _ _ _ _ Hs).
    + apply list_elem_of_lookup. exists i. rewrite lookup_take_lt by lia. exact Ha.
    + apply list_elem_of_lookup. exists 0%nat. rewrite lookup_drop.
      rewrite Nat.add_0_r. exact Hb.
Qed.

(** What [sort.Search] finds in an ascending slice: the elements before the
    result are at most [x], those from the result on are above [x]. *)
Lemma Search_sorted (l : list Z) (x : Z) :
  StronglySorted Z.lt l ->
  let n := Search (length l) (fun i => x <? default 0 (l !! i)) in
  (n <= length l)%nat /\
  Forall (fun y => y <= x) (take n l) /\
  Forall (fun y => x < y) (drop n l).
Proof.
  intros Hs n.
  set (f := fun i : nat => x <? default 0 (l !! i)) in *.
  destruct (Search_loop_spec (length l) f 0 (length l)) as (Hb & Hlo & Hhi).
  - intros a b Hab Hb Hfa. unfold f in *.
    destruct (lookup_lt_is_Some_2 l a ltac:(lia)) as [ya Hya].
    destruct (lookup_lt_is_Some_2 l b Hb) as [yb Hyb].
    rewrite Hya in Hfa. rewrite Hyb. cbn in *.
    pose proof (sorted_lookup_le l a b ya yb Hs Hab Hya Hyb).
    apply Z.ltb_lt. apply Z.ltb_lt in Hfa. lia.
  - lia.
  - lia.
  - intros k Hk. lia.
  - intros k Hk1 Hk2. lia.
  - fold (Search (length l) f) in Hb, Hlo, Hhi. fold n in Hb, Hlo, Hhi.
    split; [lia |]. split.
    + apply Forall_lookup. intros k y Hky.
      apply lookup_take_Some in Hky as [Hky Hkn].
      specialize (Hlo k Hkn). unfold f in Hlo. rewrite Hky in Hlo. cbn in Hlo.
      apply Z.ltb_ge in Hlo. exact Hlo.
    + apply Forall_lookup. intros k y Hky.
      rewrite lookup_drop in Hky.
      assert (Hlt : (n + k < length l)%nat) by (apply lookup_lt_is_Some; eauto).
      specialize (Hhi (n + k)%nat ltac:(lia) Hlt). unfold f in Hhi.
      rewrite Hky in Hhi. cbn in Hhi. apply Z.ltb_lt in Hhi. exact Hhi.
Qed.

Lemma sorted_head_le (x0 : Z) (l : list Z) (x : Z) :
  StronglySorted Z.lt (x0 :: l) -> x ∈ x0 :: l -> x0 <= x.
Proof.
  intros Hs Hx. apply StronglySorted_cons in Hs as [Hall _].
  apply elem_of_cons in Hx as [-> | Hx]; [lia |].
  rewrite Forall_forall in Hall. specialize (Hall x Hx). lia.
Qed.

(** The loop of [mergepgids] on ascending, disjoint slices whose lower head
    leads: it finishes, and what it has appended, followed by the rest of
    [follow], is the ascending union. *)
Lemma merge_loop_sorted (fuel : nat) :
  forall merged lead follow : list Z,
    StronglySorted Z.lt lead -> StronglySorted Z.lt follow -> follow <> [] ->
    (forall l0 f0, head lead = Some l0 -> head follow = Some f0 -> l0 < f0) ->
    (forall x, x ∈ lead -> x ∉ follow) ->
    (length lead + length follow < fuel)%nat ->
    exists m' f' r,
      merge_loop fuel merged lead follow = Some (Ret (m', f')) /\
      m' ++ f' = merged ++ r /\
      StronglySorted Z.lt r /\ r ≡ₚ lead ++ follow.
Proof.
  induction fuel as [| k IH]; intros merged lead follow Hl Hf Hne Hhd Hdis Hfuel;
    [lia |].
  destruct lead as [| l0 lead'].
  { exists merged, follow, follow. cbn. repeat split; auto. }
  destruct follow as [| f0 follow']; [congruence |]. clear Hne.
  cbn [merge_loop].
  set (lead := l0 :: lead') in *. set (follow := f0 :: follow') in *.
  assert (Hl0 : l0 < f0) by (apply Hhd; reflexivity).
  pose proof (Search_sorted lead f0 Hl) as Hsearch.
  cbn zeta in Hsearch. destruct Hsearch as (Hn & Hlow & Hhigh).
  set (n := Search (length lead) (fun i => f0 <? default 0 (lead !! i))) in *.
  assert (Hlt0 : forall x, x ∈ take n lead -> x < f0).
  { intros x Hx. rewrite Forall_forall in Hlow. pose proof (Hlow x Hx) as Hle.
    assert (x <> f0).
    { intros ->. apply (Hdis f0); [| left].
      apply (subseteq_take n lead). exact Hx. }
    lia. }
  destruct (Nat.leb_spec (length lead) n) as [Hge | Hlt].
  - rewrite take_ge in * by lia.
    exists (merged ++ lead), follow, (lead ++ follow).
    split; [reflexivity |]. split; [by rewrite <- app_assoc |]. split; [| done].
    apply StronglySorted_app_2; [| assumption | assumption].
    intros x1 x2 Hx1 Hx2. pose proof (Hlt0 x1 Hx1).
    pose proof (sorted_head_le f0 follow' x2 Hf Hx2). lia.
  - assert (Hn1 : (1 <= n)%nat).
    { destruct n as [| n']; [| lia]. rewrite drop_0 in Hhigh.
      rewrite Forall_forall in Hhigh. specialize (Hhigh l0 ltac:(left)). lia. }
    assert (Hsd : StronglySorted Z.lt (drop n lead)).
    { rewrite <- (take_drop n lead) in Hl. by apply StronglySorted_app_1_r in Hl. }
    destruct (IH (merged ++ take n lead) follow (drop n lead))
      as (m' & f' & r' & Hrun & Hcat & Hsr & Hperm).
    + assumption.
    + assumption.
    + intros Hnil. apply (f_equal length) in Hnil.
      rewrite length_drop in Hnil.
      change (length (@nil Z)) with 0%nat in Hnil. lia.
    + intros x y Hx Hy. cbn in Hx. injection Hx as <-.
      rewrite Forall_forall in Hhigh. apply Hhigh.
      apply head_Some_elem_of. exact Hy.
    + intros x Hx Hx'. apply (Hdis x); [| exact Hx].
      apply (subseteq_drop n lead). exact Hx'.
    + rewrite length_drop. lia.
    + exists m', f', (take n lead ++ r').
      split; [exact Hrun |]. split; [by rewrite Hcat, app_assoc |]. split.
      * apply StronglySorted_app_2; [| | assumption].
        -- intros x1 x2 Hx1 Hx2. pose proof (Hlt0 x1 Hx1).
           rewrite Hperm in Hx2. apply elem_of_app in Hx2 as [Hx2 | Hx2].
           ++ pose proof (sorted_head_le f0 follow' x2 Hf Hx2). lia.
           ++ rewrite Forall_forall in Hhigh. specialize (Hhigh x2 Hx2). lia.
        -- rewrite <- (take_drop n lead) in Hl. by apply StronglySorted_app_1_l in Hl.
      * rewrite Hperm. rewrite (Permutation_app_comm follow).
        rewrite app_assoc. by rewrite take_drop.
Qed.

Lemma copy_prefix (dst src : list Z) :
  (length src <= length dst)%nat -> copy dst src = src ++ drop (length src) dst.
Proof. intros H. unfold copy. by rewrite take_ge by lia. Qed.

(** [mergepgids] on ascending, disjoint slices and a destination that is
    large enough: the destination starts with the ascending union and keeps
    what it held after it. *)
Lemma mergepgids_sorted (dst a b : list Z) :
  StronglySorted Z.lt a -> StronglySorted Z.lt b ->
  (forall x, x ∈ a -> x ∉ b) ->
  (length a + length b <= length dst)%nat ->
  exists r,
    mergepgids dst a b = Some (Ret (r ++ drop (length a + length b) dst)) /\
    StronglySorted Z.lt r /\ r ≡ₚ a ++ b.
Proof.
  intros Ha Hb Hdis Hlen. unfold mergepgids.
  destruct (Nat.ltb_spec (length dst) (length a + length b)) as [Hbad | _];
    [lia |].
  destruct a as [| a0 a'].
  { exists b. split; [| done]. cbn [length Nat.add] in *.
    by rewrite copy_prefix by lia. }
  destruct b as [| b0 b'].
  { exists (a0 :: a'). split; [| by rewrite app_nil_r].
    cbn [length] in *. rewrite Nat.add_0_r in *.
    by rewrite copy_prefix by (cbn [length]; lia). }
  set (a := a0 :: a') in *. set (b := b0 :: b') in *.
  assert (Hfuel : (length a + length b < 2 * (length a + length b) + 2)%nat) by lia.
  assert (Hne : a0 <> b0).
  { intros ->. apply (Hdis b0); left. }
  destruct (Z.ltb_spec b0 a0) as [Hlt | Hge].
  - destruct (merge_loop_sorted (2 * (length a + length b) + 2) [] b a)
      as (m' & f' & r & Hrun & Hcat & Hsr & Hperm); try assumption.
    + discriminate.
    + intros x y Hx Hy. cbn in Hx, Hy. congruence.
    + intros x Hx Hx'. by apply (Hdis x).
    + lia.
    + rewrite Hrun. exists r. rewrite app_nil_l in Hcat. rewrite Hcat.
      assert (Hlr : length r = (length a + length b)%nat).
      { rewrite Hperm, length_app. lia. }
      split; [by rewrite copy_prefix, Hlr by lia |].
      split; [done |]. by rewrite Hperm, Permutation_app_comm.
  - destruct (merge_loop_sorted (2 * (length a + length b) + 2) [] a b)
      as (m' & f' & r & Hrun & Hcat & Hsr & Hperm); try assumption.
    + discriminate.
    + intros x y Hx Hy. cbn in Hx, Hy. injection Hx as <-. injection Hy as <-. lia.
    + rewrite Hrun. exists r. rewrite app_nil_l in Hcat. rewrite Hcat.
      assert (Hlr : length r = (length a + length b)%nat).
      { by rewrite Hperm, length_app. }
      split; [by rewrite copy_prefix, Hlr by lia |]. done.
Qed.

(** C4.  On two ascending, duplicate-free and disjoint sequences of page ids
    [merge] returns an ascending sequence holding exactly the ids of the two
    inputs, of length [len(a) + len(b)].  With an empty argument it returns
    the other input itself, on its own backing array: [merge(a, []) = a] and
    [merge([], b) = b] for every [a] and [b]. *)
Theorem merge_sorted_union (a b : list Z) :
  StronglySorted Z.lt a -> StronglySorted Z.lt b ->
  (forall x, x ∈ a -> x ∉ b) ->
  (exists o r,
      merge a b = Some (Ret (o, r)) /\
      StronglySorted Z.lt r /\
      (forall x, x ∈ r <-> x ∈ a \/ x ∈ b) /\
      length r = (length a + length b)%nat) /\
  (forall a' : list Z, a' <> [] -> merge a' [] = Some (Ret (OfA, a'))) /\
  (forall b' : list Z, merge [] b' = Some (Ret (OfB, b'))).
Proof.
  intros Ha Hb Hdis. split; [| split].
  - unfold merge.
    destruct a as [| a0 a'].
    { exists OfB, b. cbn. split; [done |]. split; [done |]. split; [| done].
      intros x. split; [auto |]. intros [Hx | Hx]; [inversion Hx | done]. }
    destruct b as [| b0 b'].
    { exists OfA, (a0 :: a'). cbn. split; [done |]. split; [done |].
      split; [| lia].
      intros x. split; [auto |]. intros [Hx | Hx]; [done | inversion Hx]. }
    cbn [length Nat.eqb].
    destruct (mergepgids_sorted
                (replicate (length (a0 :: a') + length (b0 :: b')) 0)
                (a0 :: a') (b0 :: b')) as (r & Hrun & Hsr & Hperm);
      try assumption.
    { by rewrite length_replicate. }
    cbn [length] in Hrun. rewrite Hrun.
    rewrite drop_ge, app_nil_r by (rewrite length_replicate; cbn; lia).
    exists Fresh, r. split; [done |]. split; [done |]. split.
    + intros x. rewrite Hperm. apply elem_of_app.
    + by rewrite Hperm, length_app.
  - intros a' Hne. unfold merge. destruct a'; [done | reflexivity].
  - intros b'. reflexivity.
Qed.

Lemma merge_sorted_union_witness :
  (exists o r,
      merge [1; 4; 5; 10] [2; 3; 9; 11; 12] = Some (Ret (o, r)) /\
      StronglySorted Z.lt r /\
      (forall x, x ∈ r <-> x ∈ [1; 4; 5; 10] \/ x ∈ [2; 3; 9; 11; 12]) /\
      length r = (length [1; 4; 5; 10] + length [2; 3; 9; 11; 12])%nat) /\
  (forall a' : list Z, a' <> [] -> merge a' [] = Some (Ret (OfA, a'))) /\
  (forall b' : list Z, merge [] b' = Some (Ret (OfB, b'))).
Proof.
  apply (merge_sorted_union [1; 4; 5; 10] [2; 3; 9; 11; 12]).
  - repeat (constructor; [| repeat (constructor; [lia |]); constructor]).
    constructor.
  - repeat (constructor; [| repeat (constructor; [lia |]); constructor]).
    constructor.
  - intros x Hx Hx'.
    repeat (apply elem_of_cons in Hx as [-> | Hx];
            [repeat (apply elem_of_cons in Hx' as [Hx' | Hx']; [lia |]);
             inversion Hx' |]).
    inversion Hx.
Defined.

Example merge_example :
  merge [1; 4; 5; 10] [2; 3; 9; 11; 12]
  = Some (Ret (Fresh, [1; 2; 3; 4; 5; 9; 10; 11; 12])).
Proof. vm_compute. reflexivity. Qed.

End MergeFacts.

(** ** Page types *)

Module TypFacts.
Import Page.

Lemma fastCheck_single_flag_only p :
  flags p <> branchPageFlag -> flags p <> leafPageFlag ->
  flags p <> metaPageFlag -> flags p <> freelistPageFlag ->
  fastCheck p (id p) = Fatal "page %v: has unexpected type/flags: %x".
Proof.
  unfold branchPageFlag, leafPageFlag, metaPageFlag, freelistPageFlag.
  intros H1 H2 H4 H16. unfold fastCheck. rewrite Z.eqb_refl. cbn [negb].
  destruct (Z.ltb_spec freelistPageFlag (flags p)) as [Hgt | Hle];
    [reflexivity |].
  unfold freelistPageFlag in Hle. cbn [orb].
  assert (Hc : flags p < 0 \/ flags p = 0 \/ flags p = 3 \/ flags p = 5 \/
               flags p = 6 \/ flags p = 7 \/ flags p = 8 \/ flags p = 9 \/
               flags p = 10 \/ flags p = 11 \/ flags p = 12 \/ flags p = 13 \/
               flags p = 14 \/ flags p = 15) by lia.
  destruct Hc as [Hc | Hc].
  - destruct (flags p) as [| q | q]; try lia. reflexivity.
  - repeat (destruct Hc as [Hc | Hc]; [rewrite Hc; reflexivity |]).
    rewrite Hc. reflexivity.
Qed.

(** C10.  [typ] is a total function of the flags and classifies by
    precedence: "branch" whenever the branch bit is set, whatever else is
    set; else "leaf" if the leaf bit is set; else "meta"; else "freelist";
    else "unknown<..>" with the flags in two-digit hex.  It accepts pages that
    [fastCheck] rejects: every page whose flags are not exactly one of the
    four type flags makes [fastCheck] panic, and [typ] still names a type
    (flags 3, branch and leaf together, read as "branch"). *)
Theorem typ_total_by_precedence :
  (forall p,
      (Z.land (flags p) branchPageFlag <> 0 -> typ p = "branch") /\
      (Z.land (flags p) branchPageFlag = 0 ->
       Z.land (flags p) leafPageFlag <> 0 -> typ p = "leaf") /\
      (Z.land (flags p) branchPageFlag = 0 ->
       Z.land (flags p) leafPageFlag = 0 ->
       Z.land (flags p) metaPageFlag <> 0 -> typ p = "meta") /\
      (Z.land (flags p) branchPageFlag = 0 ->
       Z.land (flags p) leafPageFlag = 0 ->
       Z.land (flags p) metaPageFlag = 0 ->
       Z.land (flags p) freelistPageFlag <> 0 -> typ p = "freelist") /\
      (Z.land (flags p) branchPageFlag = 0 ->
       Z.land (flags p) leafPageFlag = 0 ->
       Z.land (flags p) metaPageFlag = 0 ->
       Z.land (flags p) freelistPageFlag = 0 ->
       typ p = "unknown<" +:+ sprintf_02x (flags p) +:+ ">")) /\
  typ (mkPage 7 0x20 0 0) = "unknown<20>" /\
  typ (mkPage 7 0 0 0) = "unknown<00>" /\
  (forall i c o,
      typ (mkPage i 3 c o) = "branch" /\
      fastCheck (mkPage i 3 c o) i = Fatal "page %v: has unexpected type/flags: %x") /\
  (forall p,
      flags p <> branchPageFlag -> flags p <> leafPageFlag ->
      flags p <> metaPageFlag -> flags p <> freelistPageFlag ->
      fastCheck p (id p) = Fatal "page %v: has unexpected type/flags: %x" /\
      exists s, typ p = s).
Proof.
  split; [| split; [| split; [| split]]].
  - intros p. unfold typ.
    repeat split; intros;
      repeat match goal with
        | H : ?x = 0 |- context [?x =? 0] =>
            rewrite (proj2 (Z.eqb_eq x 0) H); cbn [negb]
        | H : ?x <> 0 |- context [?x =? 0] =>
            rewrite (proj2 (Z.eqb_neq x 0) H); cbn [negb]
        end; reflexivity.
  - reflexivity.
  - reflexivity.
  - intros i c o. split; [reflexivity |].
    apply (fastCheck_single_flag_only (mkPage i 3 c o)); cbn; discriminate.
  - intros p H1 H2 H4 H16. split.
    + apply fastCheck_single_flag_only; assumption.
    + eexists. reflexivity.
Qed.

Lemma typ_total_by_precedence_witness :
  typ (Page.mkPage 9 0x13 0 0) = "branch" /\
  fastCheck (Page.mkPage 9 0x13 0 0) 9 = Fatal "page %v: has unexpected type/flags: %x".
Proof.
  destruct typ_total_by_precedence as (Hprec & _ & _ & _ & Hreject).
  split.
  - apply (Hprec (mkPage 9 0x13 0 0)). vm_compute. discriminate.
  - apply (Hreject (mkPage 9 0x13 0 0)); vm_compute; discriminate.
Defined.

End TypFacts.

(** ** The transaction *)

Module TxFacts.
Import Page Tx.

Ltac run :=
  cbv [mbind mret M_bind M_ret get modify emit panic lift _assert
       deref_meta deref_root set_meta set_root set_pages set_db
       tx database log writable managed db meta root pages stats_Write
       commitHandlers negb].

(** C8.  [init] takes the meta record the database currently selects and
    keeps its own copy: the database's record is not changed.  Exactly when
    the transaction is writable it gets an empty dirty-page cache and its copy
    has [txid] and [flid] one higher than the committed ones (so the [txid] is
    strictly greater and the parity of [flid] flips); a read-only transaction
    keeps the committed [txid] and [flid] and has no page cache.  The
    counters are uint64 values below their maximum. *)
Theorem init_snapshot (s : state) :
  0 <= meta.txid (DB.meta (database s)) < 2 ^ 64 - 1 ->
  0 <= meta.flid (DB.meta (database s)) < 2 ^ 64 - 1 ->
  let m := DB.meta (database s) in
  exists s',
    init s = Some (Ret tt, s') /\
    database s' = database s /\ log s' = log s /\
    db (tx s') = true /\ writable (tx s') = writable (tx s) /\
    root (tx s') = Some (meta.root m) /\
    (writable (tx s) = true ->
     pages (tx s') = Some ∅ /\
     meta (tx s') = Some (meta.mk (meta.root m) (meta.pgid m)
                                  (meta.txid m + 1) (meta.flid m + 1)) /\
     meta.txid m < meta.txid m + 1 /\
     (meta.flid m + 1) mod 2 <> meta.flid m mod 2) /\
    (writable (tx s) = false ->
     pages (tx s') = None /\ meta (tx s') = Some m).
Proof.
  intros Htx Hfl m.
  destruct s as [[w mg d me r ps sw hs] [psz sm ns fl [mr mp mt mf]] lg].
  cbn in Htx, Hfl, m. subst m. unfold init. run.
  destruct w; cbn -[uint64 Z.add].
  - rewrite !uint64_small by lia.
    eexists. split; [reflexivity |]. cbn.
    repeat split; try discriminate; try lia.
    clear. Z.div_mod_to_equations. lia.
  - eexists. split; [reflexivity |]. cbn.
    repeat split; try discriminate.
Qed.

Lemma init_snapshot_witness :
  exists s',
    init (Sample.begin true) = Some (Ret tt, s') /\
    database s' = Sample.db0 /\ log s' = [] /\
    db (tx s') = true /\ writable (tx s') = true /\
    root (tx s') = Some (bucket.mk 3 0) /\
    (true = true ->
     pages (tx s') = Some ∅ /\
     meta (tx s') = Some (meta.mk (bucket.mk 3 0) 514 (7 + 1) (7 + 1)) /\
     7 < 7 + 1 /\ (7 + 1) mod 2 <> 7 mod 2) /\
    (true = false -> pages (tx s') = None /\ meta (tx s') = Some Sample.meta0).
Proof. apply (init_snapshot (Sample.begin true)); cbn; lia. Defined.

(** C5.  [Commit] on a managed transaction fails its assertion; on a closed
    transaction (read-only or not) it returns [ErrTxClosed]; on an open
    read-only transaction it returns [ErrTxNotWritable].  In all three cases
    the state is what it was: nothing was logged, nothing written. *)
Theorem Commit_guards (E : env) (s : state) :
  (managed (tx s) = true ->
   Commit E s = Some (Fatal "assertion failed: managed tx commit not allowed", s)) /\
  (managed (tx s) = false -> db (tx s) = false ->
   Commit E s = Some (Ret (Some ErrTxClosed), s)) /\
  (managed (tx s) = false -> db (tx s) = true -> writable (tx s) = false ->
   Commit E s = Some (Ret (Some ErrTxNotWritable), s)).
Proof.
  destruct s as [[w mg d me r ps sw hs] dbs lg]. cbn [tx managed db writable].
  repeat split; intros; subst; reflexivity.
Qed.

Lemma Commit_guards_witness :
  Commit Sample.quiet (Sample.opened false)
  = Some (Ret (Some ErrTxNotWritable), Sample.opened false).
Proof.
  apply (Commit_guards Sample.quiet (Sample.opened false)); reflexivity.
Defined.



(** An id below zero converts to a page id of at least 2^63, which is past
    any high-water mark a database reaches: neither result nor error. *)
Lemma Page_negative_id (E : env) (s : state) (n : Z) (m : meta.t) :
  db (tx s) = true -> meta (tx s) = Some m ->
  - 2 ^ 63 <= n < 0 -> meta.pgid m <= 2 ^ 63 ->
  Page E n s = Some (Ret (None, None), s).
Proof.
  destruct s as [[w mg d me r ps sw hs] dbs lg]. cbn [tx db meta].
  intros -> -> Hn Hm. unfold Page. run.
  assert (Hu : uint64 n = n + 2 ^ 64).
  { unfold uint64. symmetry. apply (Z.mod_unique _ _ (-1)); lia. }
  rewrite Hu.
  replace (meta.pgid m <=? n + 2 ^ 64) with true by (symmetry; apply Z.leb_le; lia).
  reflexivity.
Qed.

(** The page id and overflow count [commitFreelist] computes, without the
    machine conversions: regions of at most 2^32 pages, sizes within [int]. *)
Lemma freelist_page_id (R P flid : Z) :
  0 < P -> P <= R < 2 ^ 62 -> 0 <= flid ->
  uint64 (2 + uint64 ((flid mod 2) * uint64 R) / uint64 P)
  = 2 + (flid mod 2) * R / P.
Proof.
  intros HP HR Hf.
  pose proof (Z.mod_pos_bound flid 2 ltac:(lia)) as Hb.
  rewrite (uint64_small R), (uint64_small P) by lia.
  assert (Hx : 0 <= flid mod 2 * R < 2 ^ 62) by nia.
  set (x := flid mod 2 * R) in *.
  rewrite (uint64_small x) by lia.
  apply uint64_small.
  assert (0 <= x / P) by (apply Z.div_pos; lia).
  assert (x / P <= x).
  { apply Z.div_le_upper_bound; [lia |]. nia. }
  lia.
Qed.

Lemma freelist_pages_many (size P : Z) :
  0 < P -> P <= size -> size + P < 2 ^ 32 * P -> size < 2 ^ 62 ->
  let n := int64 (Z.quot size P + 1) in
  n = size / P + 1 /\ 0 < int64 (n * P) /\ uint32 (uint32 n - 1) = size / P.
Proof.
  intros HP Hs Hr Hs62 n. subst n.
  rewrite Z.quot_div_nonneg by lia.
  assert (Hq : 0 < size / P) by (apply Z.div_str_pos; lia).
  assert (Hq' : size / P + 1 < 2 ^ 32).
  { assert (size / P < 2 ^ 32 - 1); [| lia].
    apply Z.div_lt_upper_bound; lia. }
  assert (Hm : P * (size / P) <= size) by (apply Z.mul_div_le; lia).
  rewrite (int64_small (size / P + 1)) by lia.
  split; [reflexivity |]. split.
  - rewrite int64_small; nia.
  - rewrite (uint32_small (size / P + 1)) by lia.
    rewrite uint32_small by lia. lia.
Qed.

(** C3 (as the code has it).  In [commitFreelist] the assertion fails, and
    the commit panics with nothing done, exactly when the serialized freelist
    is not strictly smaller than [freelistRegionSize - pageSize]: also when the
    two are equal.  Below that, the assertion passes: the page for the region
    [flid % 2] is built ([id = 2 + (flid%2)*freelistRegionSize/pageSize],
    [overflow] one less than its page count) and handed to [freelist.write];
    without an error from it the page enters the dirty-page cache under its id
    and [nil] is returned, with an error the transaction is rolled back and the
    error returned. *)
Theorem commitFreelist_budget (E : env) (s : state) (m : meta.t)
        (ps : gmap Z page) :
  db (tx s) = true -> DB.freelist (database s) = true ->
  meta (tx s) = Some m -> pages (tx s) = Some ps ->
  0 < DB.pageSize (database s) ->
  DB.pageSize (database s) <= freelistRegionSize E < 2 ^ 62 ->
  freelistRegionSize E < 2 ^ 32 * DB.pageSize (database s) ->
  0 <= freelist_size E (log s) < 2 ^ 62 ->
  0 <= meta.flid m ->
  let P := DB.pageSize (database s) in
  let R := freelistRegionSize E in
  let size := freelist_size E (log s) in
  (R - P <= size ->
   commitFreelist E s
   = Some (Fatal "assertion failed: fatal: freelist too large", s)) /\
  (size < R - P ->
   let p0 := mkPage (2 + (meta.flid m mod 2) * R / P) 0 0
                    (if size <? P then 0 else size / P) in
   let p := mkPage (id p0) freelistPageFlag
                   (fst (freelist_write E (log s) p0)) (overflow p0) in
   match snd (freelist_write E (log s) p0) with
   | None =>
       commitFreelist E s
       = Some (Ret None,
               mkState (set_pages (Some (<[id p := p]> ps)) (tx s))
                       (database s) (log s ++ [EvFreelistWrite p None]))
   | Some e =>
       exists s',
         commitFreelist E s = Some (Ret (Some e), s') /\
         db (tx s') = false /\
         take (S (length (log s))) (log s')
         = log s ++ [EvFreelistWrite p (Some e)]
   end).
Proof.
  intros Hdb Hfl Hmeta Hpages HP HR HR32 Hsz Hflid P R size.
  split; [intros Hover | intros Hfit p0 p].
  all: destruct s as [[w mg d me r pgs sw hs] [psz sm ns fl dm] lg].
  all: cbn [tx database log db meta pages DB.pageSize DB.freelist] in *.
  all: subst d fl me pgs; subst P.
  all: assert (Hbudget : int64 (R - psz) = R - psz) by (apply int64_small; lia).
  - unfold commitFreelist. run. cbn [andb DB.pageSize].
    fold R. fold size. rewrite Hbudget.
    replace (size <? R - psz) with false by (symmetry; apply Z.ltb_ge; lia).
    reflexivity.
  - subst p p0. cbn [id overflow flags count].
    unfold commitFreelist. run. cbn [andb DB.pageSize DB.freelist].
    fold R. fold size. rewrite Hbudget.
    replace (size <? R - psz) with true by (symmetry; apply Z.ltb_lt; lia).
    replace (uint64 psz =? 0) with false
      by (rewrite uint64_small by lia; symmetry; apply Z.eqb_neq; lia).
    replace (psz =? 0) with false by (symmetry; apply Z.eqb_neq; lia).
    assert (Hroll : forall s0 : state,
               db (tx s0) = true -> meta (tx s0) = Some m ->
               exists s', rollback E s0 = Some (Ret tt, s')
                          /\ db (tx s') = false
                          /\ take (length (log s0)) (log s') = log s0).
    { intros [[w0 mg0 d0 me0 r0 pgs0 sw0 hs0] dbs0 lg0].
      cbn [tx db meta log]. intros -> ->. unfold rollback, close. run.
      destruct w0; run.
      - destruct (db_data E _); run; eexists; (split; [reflexivity |]);
          (split; [reflexivity |]); cbn [log];
          rewrite <- ?app_assoc; apply take_app_length.
      - eexists. split; [reflexivity |]. split; [reflexivity |]. cbn [log].
        rewrite <- ?app_assoc. apply take_app_length. }
    destruct (Z.ltb_spec size psz) as [Hsmall | Hlarge].
    + run. rewrite freelist_page_id by lia. fold R.
      change (uint32 (uint32 1 - 1)) with 0.
      destruct (freelist_write E lg _) as [n [e |]]; cbn [fst snd]; run.
      * match goal with
        | |- context [rollback E ?s0] =>
            destruct (Hroll s0) as (s' & Hr & Hd & Hl); [reflexivity .. |];
            rewrite Hr
        end.
        exists s'. split; [reflexivity |]. split; [exact Hd |].
        cbn [log] in Hl. rewrite length_app, Nat.add_1_r in Hl. exact Hl.
      * reflexivity.
    + destruct (freelist_pages_many size psz) as (Hn & Hlen & Hov); try lia.
      cbn zeta in Hn, Hlen, Hov.
      replace (int64 (int64 (Z.quot size psz + 1) * psz) <? 0) with false
        by (symmetry; apply Z.ltb_ge; lia).
      replace (int64 (int64 (Z.quot size psz + 1) * psz) =? 0) with false
        by (symmetry; apply Z.eqb_neq; lia).
      run. rewrite freelist_page_id by lia. fold R. rewrite Hov.
      destruct (freelist_write E lg _) as [n [e |]]; cbn [fst snd]; run.
      * match goal with
        | |- context [rollback E ?s0] =>
            destruct (Hroll s0) as (s' & Hr & Hd & Hl); [reflexivity .. |];
            rewrite Hr
        end.
        exists s'. split; [reflexivity |]. split; [exact Hd |].
        cbn [log] in Hl. rewrite length_app, Nat.add_1_r in Hl. exact Hl.
      * reflexivity.
Qed.

Lemma commitFreelist_budget_witness :
  commitFreelist Sample.quiet (Sample.opened true)
  = Some (Ret None,
          mkState
            (set_pages
               (Some (<[2 := mkPage 2 freelistPageFlag 2 0]> ∅))
               (tx (Sample.opened true)))
            Sample.db0
            [EvFreelistWrite (mkPage 2 freelistPageFlag 2 0) None]).
Proof.
  refine (proj2 (commitFreelist_budget Sample.quiet (Sample.opened true)
                   (meta.mk (bucket.mk 3 0) 514 8 8) ∅
                   eq_refl eq_refl eq_refl eq_refl _ _ _ _ _) _);
    cbn; lia.
Defined.

(** C3, as first stated (abort exactly when the size exceeds the budget),
    fails: at a serialized size of exactly [freelistRegionSize - pageSize]
    the size does not exceed the budget, and the commit aborts all the same. *)
Lemma commitFreelist_aborts_at_budget :
  ~ (freelist_size Sample.full_freelist []
     > freelistRegionSize Sample.full_freelist - DB.pageSize Sample.db0) /\
  commitFreelist Sample.full_freelist (Sample.opened true)
  = Some (Fatal "assertion failed: fatal: freelist too large",
          Sample.opened true).
Proof.
  split.
  - cbn. lia.
  - vm_compute. reflexivity.
Qed.


(** *** The dirty-page write *)






(** [n] calls of [tx.stats.IncWrite(1)]. *)
Definition bump_writes (n : nat) (x : Tx.t) : Tx.t :=
  Nat.iter n (fun x => mk (writable x) (managed x) (db x) (meta x) (root x)
                          (pages x) (int64 (stats_Write x + 1))
                          (commitHandlers x)) x.

Lemma bump_writes_S n x :
  bump_writes n (mk (writable x) (managed x) (db x) (meta x) (root x)
                    (pages x) (int64 (stats_Write x + 1)) (commitHandlers x))
  = bump_writes (S n) x.
Proof.
  unfold bump_writes. symmetry.
  exact (Nat.iter_succ_r n _ x).
Qed.







Lemma bump_writes_add (n k : nat) (x : Tx.t) :
  bump_writes n (bump_writes k x) = bump_writes (k + n) x.
Proof.
  unfold bump_writes. rewrite Nat.add_comm. symmetry. apply Nat.iter_add.
Qed.

(** Counting writes changes nothing else of the transaction. *)
Lemma bump_writes_frame (n : nat) (x : Tx.t) :
  writable (bump_writes n x) = writable x /\
  managed (bump_writes n x) = managed x /\
  db (bump_writes n x) = db x /\
  meta (bump_writes n x) = meta x /\
  root (bump_writes n x) = root x /\
  pages (bump_writes n x) = pages x /\
  commitHandlers (bump_writes n x) = commitHandlers x.
Proof.
  induction n as [| n IH]; [repeat split |].
  unfold bump_writes in *. cbn [Nat.iter]. cbn.
  exact IH.
Qed.



(** What the last loop of [write] logs: a [Put] for each single-page buffer. *)
Definition pool_events (ps : list page) : list event :=
  flat_map (fun p => if int64 (overflow p) =? 0 then [EvPoolPut p] else []) ps.

Lemma pool_pages_log (ps : list page) (s : state) :
  pool_pages ps s
  = Some (Ret tt, mkState (tx s) (database s) (log s ++ pool_events ps)).
Proof.
  revert s. induction ps as [| p ps IH]; intros [x dbs lg].
  - cbn. rewrite app_nil_r. reflexivity.
  - cbn [pool_pages pool_events flat_map]. unfold mbind, M_bind.
    destruct (int64 (overflow p) =? 0); run; rewrite IH; cbn [tx database log];
      rewrite <- ?app_assoc; reflexivity.
Qed.

Definition is_writeAt (e : event) : Prop :=
  match e with
  | EvWriteAt _ _ _ _ => True
  | _ => False
  end.


#[local] Instance not_after_trans : Transitive not_after.
Proof. intros p q r. unfold not_after, Less. lia. Qed.
#[local] Instance not_after_total : Total not_after.
Proof. intros p q. unfold not_after, Less. lia. Qed.






(** The same run, computed: page 514 in two chunks, then page 515 (two page
    sizes) in three, then the sync; only the single-page buffer is pooled. *)
Example write_small_chunks_run :
  let p514 := mkPage 514 branchPageFlag 2 0 in
  let p515 := mkPage 515 leafPageFlag 2 1 in
  exists s',
    write Sample.small_chunks Sample.dirty = Some (Ret None, s') /\
    log s' = [EvWriteAt (DirtyPage p514 0) 3000 2105344 None;
              EvWriteAt (DirtyPage p514 3000) 1096 2108344 None;
              EvWriteAt (DirtyPage p515 0) 3000 2109440 None;
              EvWriteAt (DirtyPage p515 3000) 3000 2112440 None;
              EvWriteAt (DirtyPage p515 6000) 2192 2115440 None;
              EvFdatasync None;
              EvPoolPut p514] /\
    pages (tx s') = Some ∅ /\ stats_Write (tx s') = 5.
Proof. eexists. vm_compute. repeat split. Qed.


(** *** Commit: the order of its steps *)

(** The error a logged call reported, if any. *)
Definition ev_err (e : event) : option error :=
  match e with
  | EvSpill r | EvFreelistWrite _ r | EvGrow _ r | EvWriteAt _ _ _ r
  | EvFdatasync r => r
  | _ => None
  end.

(** The calls of one step and what the step returned: without an error every
    call succeeded; with an error [e] the last call is the one that reported
    [e], and the calls before it succeeded. *)
Definition step_run (evs : list event) (r : option error) : Prop :=
  match r with
  | None => Forall (fun ev => ev_err ev = None) evs
  | Some e =>
      exists front last,
        evs = front ++ [last] /\
        Forall (fun ev => ev_err ev = None) front /\ ev_err last = Some e
  end.

Definition is_write_phase (e : event) : Prop :=
  match e with
  | EvWriteAt (DirtyPage _ _) _ _ _ | EvFdatasync _ | EvPoolPut _ => True
  | _ => False
  end.

(** The dirty-page write step. *)
Definition write_run (evs : list event) (r : option error) : Prop :=
  Forall is_write_phase evs /\ step_run evs r.

(** The meta write step: one [writeAt] of the meta buffer, then at most a
    sync. *)
Definition meta_run (evs : list event) (r : option error) : Prop :=
  (exists m n off r0 tl,
      evs = EvWriteAt (MetaBuf m) n off r0 :: tl /\
      (tl = [] \/ exists r1, tl = [EvFdatasync r1])) /\
  step_run evs r.

(** A rollback after a failure: the freelist is rolled back, reloaded from
    disk while the file is still mapped, and the writer lock released. *)
Definition rollback_run (evs : list event) : Prop :=
  exists txid,
    evs = [EvFreelistRollback txid; EvUnlock] \/
    evs = [EvFreelistRollback txid; EvFreelistReload; EvUnlock].

Lemma step_run_nil : step_run [] None.
Proof. constructor. Qed.

Lemma step_run_app (evs1 evs2 : list event) (r : option error) :
  step_run evs1 None -> step_run evs2 r -> step_run (evs1 ++ evs2) r.
Proof.
  intros H1 H2. destruct r as [e |]; cbn in *.
  - destruct H2 as (front & last & -> & Hfront & Hlast).
    exists (evs1 ++ front), last. split; [by rewrite app_assoc |].
    split; [apply Forall_app; split; assumption | exact Hlast].
  - apply Forall_app. split; assumption.
Qed.

Lemma write_run_app (evs1 evs2 : list event) (r : option error) :
  write_run evs1 None -> write_run evs2 r -> write_run (evs1 ++ evs2) r.
Proof.
  intros [Hp1 Hs1] [Hp2 Hs2]. split.
  - apply Forall_app. split; assumption.
  - apply step_run_app; assumption.
Qed.

Lemma step_run_single (ev : event) :
  step_run [ev] (ev_err ev).
Proof.
  destruct (ev_err ev) as [e |] eqn:He; cbn.
  - exists [], ev. repeat split; [constructor | exact He].
  - constructor; [exact He | constructor].
Qed.

(** [close] and [rollback] of an open writable transaction. *)
Definition closed (x : Tx.t) : Tx.t :=
  set_pages None (set_root None (set_meta None (set_db false x))).

Definition rollback_events (E : env) (lg : list event) (txid : Z) : list event :=
  EvFreelistRollback txid
    :: (if db_data E (lg ++ [EvFreelistRollback txid])
        then [EvFreelistReload] else [])
    ++ [EvUnlock].

Lemma rollback_events_run (E : env) (lg : list event) (txid : Z) :
  rollback_run (rollback_events E lg txid).
Proof.
  exists txid. unfold rollback_events.
  destruct (db_data E _); [right | left]; reflexivity.
Qed.

Lemma close_writable (s : state) :
  db (tx s) = true -> writable (tx s) = true ->
  close s = Some (Ret tt, mkState (closed (tx s)) (database s)
                                  (log s ++ [EvUnlock])).
Proof.
  destruct s as [[w mg d me r ps sw hs] dbs lg]. cbn [tx db writable].
  intros -> ->. reflexivity.
Qed.

Lemma rollback_writable (E : env) (s : state) (m : meta.t) :
  db (tx s) = true -> writable (tx s) = true -> meta (tx s) = Some m ->
  rollback E s
  = Some (Ret tt, mkState (closed (tx s)) (database s)
                          (log s ++ rollback_events E (log s) (meta.txid m))).
Proof.
  destruct s as [[w mg d me r ps sw hs] dbs lg]. cbn [tx db writable meta].
  intros -> -> ->. unfold rollback, close, rollback_events. run.
  destruct (db_data E _); run; cbn [log database tx];
    rewrite <- ?app_assoc; reflexivity.
Qed.

(** The inner loop of [write] ends for every answer of the file, given a
    transfer limit of at least one byte. *)
Lemma write_chunks_total (E : env) (p : page) (fuel : nat) :
  1 <= maxAllocSize E - 1 ->
  forall (rem off from : Z) (s : state),
    0 <= rem < 2 ^ 64 ->
    (Z.to_nat (rem / (maxAllocSize E - 1)) < fuel)%nat ->
    exists r n evs,
      write_chunks E fuel p rem off from s
      = Some (Ret r, mkState (bump_writes n (tx s)) (database s) (log s ++ evs))
      /\ write_run evs r.
Proof.
  intros HL. set (L := maxAllocSize E - 1) in *.
  induction fuel as [| k IH]; intros rem off from s Hrem Hfuel; [lia |].
  cbn [write_chunks]. fold L.
  set (sz := if L <? rem then L else rem).
  assert (Hsz : 0 <= sz <= rem /\ sz <= L /\ (sz = 0 -> rem = 0)).
  { subst sz. destruct (Z.ltb_spec L rem); lia. }
  destruct s as [[w mg d me r ps sw hs] dbs lg].
  unfold writeAt. run.
  set (ev := EvWriteAt (DirtyPage p from) (int64 sz) off
                       (ops_writeAt E lg (DirtyPage p from) (int64 sz) off)).
  assert (Hev : is_write_phase ev) by exact I.
  destruct (ops_writeAt E lg (DirtyPage p from) (int64 sz) off) as [e |] eqn:Hres.
  - exists (Some e), 0%nat, [ev]. split; [reflexivity |]. split.
    + constructor; [exact Hev | constructor].
    + exists [], ev. split; [reflexivity |]. split; [constructor |].
      reflexivity.
  - unfold IncWrite. run.
    rewrite (uint64_small (rem - sz)) by lia.
    destruct (Z.eqb_spec (rem - sz) 0) as [Hz | Hnz].
    + exists None, 1%nat, [ev]. split; [reflexivity |]. split.
      * constructor; [exact Hev | constructor].
      * constructor; [reflexivity | constructor].
    + assert (HszL : sz = L).
      { subst sz. destruct (Z.ltb_spec L rem); lia. }
      edestruct (IH (rem - sz) (int64 (off + int64 sz))
                    (uint64 (from + uint64 sz))) as (r' & n & evs & Hrun & Hwr).
      * lia.
      * rewrite HszL. replace (rem - L) with (rem + (-1) * L) by lia.
        rewrite Z.div_add by lia.
        assert (0 < rem / L) by (apply Z.div_str_pos; lia). lia.
      * rewrite Hrun. cbn [tx database log].
        exists r', (S n), (ev :: evs). split.
        -- rewrite <- (bump_writes_S _ (mk w mg d me r ps sw hs)).
           cbn [writable managed db meta root pages stats_Write commitHandlers].
           rewrite <- app_assoc. reflexivity.
        -- apply (write_run_app [ev] evs); [| exact Hwr].
           split; [constructor; [exact Hev | constructor] |].
           constructor; [reflexivity | constructor].
Qed.

Lemma uint64_range (z : Z) : 0 <= uint64 z < 2 ^ 64.
Proof. unfold uint64. apply Z.mod_pos_bound. lia. Qed.

Lemma write_page_total (E : env) (p : page) (s : state) :
  1 <= maxAllocSize E - 1 ->
  exists r n evs,
    write_page E p s
    = Some (Ret r, mkState (bump_writes n (tx s)) (database s) (log s ++ evs))
    /\ write_run evs r.
Proof.
  intros HL. destruct s as [x dbs lg]. unfold write_page. run.
  apply write_chunks_total; [exact HL | apply uint64_range | lia].
Qed.

Lemma write_pages_total (E : env) (ps : list page) :
  1 <= maxAllocSize E - 1 ->
  forall s : state,
    exists r n evs,
      write_pages E ps s
      = Some (Ret r, mkState (bump_writes n (tx s)) (database s) (log s ++ evs))
      /\ write_run evs r.
Proof.
  intros HL. induction ps as [| p ps IH]; intros s.
  - exists None, 0%nat, []. split.
    + destruct s. cbn. rewrite app_nil_r. reflexivity.
    + split; constructor.
  - destruct (write_page_total E p s HL) as (r1 & n1 & evs1 & Hrun1 & Hwr1).
    cbn [write_pages]. unfold mbind at 1, M_bind at 1. rewrite Hrun1.
    destruct r1 as [e |].
    + exists (Some e), n1, evs1. split; [reflexivity | exact Hwr1].
    + destruct (IH (mkState (bump_writes n1 (tx s)) (database s) (log s ++ evs1)))
        as (r2 & n2 & evs2 & Hrun2 & Hwr2).
      rewrite Hrun2. cbn [tx database log].
      exists r2, (n1 + n2)%nat, (evs1 ++ evs2). split.
      * rewrite bump_writes_add, <- app_assoc. reflexivity.
      * apply write_run_app; assumption.
Qed.

Lemma pool_events_run (ps : list page) : write_run (pool_events ps) None.
Proof.
  induction ps as [| p ps IH]; [split; constructor |].
  cbn [pool_events flat_map].
  destruct (int64 (overflow p) =? 0); [| exact IH].
  apply (write_run_app [EvPoolPut p]); [| exact IH].
  split; (constructor; [exact I || reflexivity | constructor]).
Qed.

(** [write] ends for every answer of the file and of the sync: it leaves an
    empty page cache, counts its writes, and logs only calls of its own. *)
Lemma write_total (E : env) (s : state) :
  1 <= maxAllocSize E - 1 ->
  exists r n evs,
    write E s
    = Some (Ret r,
            mkState (bump_writes n (set_pages (Some ∅) (tx s))) (database s)
                    (log s ++ evs))
    /\ write_run evs r.
Proof.
  intros HL. destruct s as [[w mg d me r ps sw hs] dbs lg].
  unfold write. run.
  set (sorted := sort_pages match ps with
                            | Some m => (map_to_list m).*2
                            | None => []
                            end).
  destruct (write_pages_total E sorted HL
              {| tx := mk w mg d me r (Some ∅) sw hs; database := dbs; log := lg |})
    as (r1 & n1 & evs1 & Hrun1 & Hwr1).
  rewrite Hrun1. cbn [tx database log].
  destruct r1 as [e |].
  { exists (Some e), n1, evs1. split; [reflexivity | exact Hwr1]. }
  unfold sync. run.
  destruct (if DB.NoSync dbs then false else true) eqn:Hns; cbn [orb].
  - run. set (r2 := fdatasync E (lg ++ evs1)).
    destruct r2 as [e |] eqn:Hr2; run.
    + exists (Some e), n1, (evs1 ++ [EvFdatasync (Some e)]).
      split; [by rewrite <- app_assoc |].
      apply write_run_app; [exact Hwr1 |].
      split; [constructor; [exact I | constructor] |].
      apply (step_run_single (EvFdatasync (Some e))).
    + rewrite pool_pages_log. cbn [tx database log].
      exists None, n1, (evs1 ++ [EvFdatasync None] ++ pool_events sorted).
      split; [by rewrite <- !app_assoc |].
      apply write_run_app; [exact Hwr1 |].
      apply (write_run_app [EvFdatasync None]); [| apply pool_events_run].
      split; (constructor; [exact I || reflexivity | constructor]).
  - destruct (IgnoreNoSync E); run.
    + set (r2 := fdatasync E (lg ++ evs1)).
      destruct r2 as [e |] eqn:Hr2; run.
      * exists (Some e), n1, (evs1 ++ [EvFdatasync (Some e)]).
        split; [by rewrite <- app_assoc |].
        apply write_run_app; [exact Hwr1 |].
        split; [constructor; [exact I | constructor] |].
        apply (step_run_single (EvFdatasync (Some e))).
      * rewrite pool_pages_log. cbn [tx database log].
        exists None, n1, (evs1 ++ [EvFdatasync None] ++ pool_events sorted).
        split; [by rewrite <- !app_assoc |].
        apply write_run_app; [exact Hwr1 |].
        apply (write_run_app [EvFdatasync None]); [| apply pool_events_run].
        split; (constructor; [exact I || reflexivity | constructor]).
    + rewrite pool_pages_log. cbn [tx database log].
      exists None, n1, (evs1 ++ pool_events sorted).
      split; [by rewrite <- !app_assoc |].
      apply write_run_app; [exact Hwr1 | apply pool_events_run].
Qed.

(** [writeMeta] of an open transaction ends: one [writeAt] of the meta
    buffer, then the sync unless skipped. *)
Lemma writeMeta_total (E : env) (s : state) (m : meta.t) :
  meta (tx s) = Some m ->
  exists r n evs,
    writeMeta E s
    = Some (Ret r, mkState (bump_writes n (tx s)) (database s) (log s ++ evs))
    /\ meta_run evs r.
Proof.
  destruct s as [[w mg d me r ps sw hs] dbs lg]. cbn [tx meta]. intros ->.
  unfold writeMeta, writeAt. run.
  set (off := int64 (int64 (id (meta.write m)) * int64 (DB.pageSize dbs))).
  set (r0 := ops_writeAt E lg (MetaBuf m) (DB.pageSize dbs) off).
  set (ev := EvWriteAt (MetaBuf m) (DB.pageSize dbs) off r0).
  destruct r0 as [e |] eqn:Hr0; run.
  { exists (Some e), 0%nat, [ev]. split; [reflexivity |]. split.
    - exists m, (DB.pageSize dbs), off, (Some e), []. split; [reflexivity | by left].
    - exists [], ev. split; [reflexivity |]. split; [constructor | reflexivity]. }
  unfold sync, IncWrite. run.
  destruct (if DB.NoSync dbs then false else true) eqn:Hns; cbn [orb]; run.
  - set (r1 := fdatasync E (lg ++ [ev])).
    destruct r1 as [e |] eqn:Hr1; run.
    + exists (Some e), 0%nat, [ev; EvFdatasync (Some e)].
      split; [by rewrite <- app_assoc |]. split.
      * exists m, (DB.pageSize dbs), off, None, [EvFdatasync (Some e)].
        split; [reflexivity | right; eauto].
      * exists [ev], (EvFdatasync (Some e)). split; [reflexivity |].
        split; [constructor; [reflexivity | constructor] | reflexivity].
    + exists None, 1%nat, [ev; EvFdatasync None].
      split; [by rewrite <- app_assoc |]. split.
      * exists m, (DB.pageSize dbs), off, None, [EvFdatasync None].
        split; [reflexivity | right; eauto].
      * repeat constructor.
  - destruct (IgnoreNoSync E); run.
    + set (r1 := fdatasync E (lg ++ [ev])).
      destruct r1 as [e |] eqn:Hr1; run.
      * exists (Some e), 0%nat, [ev; EvFdatasync (Some e)].
        split; [by rewrite <- app_assoc |]. split.
        -- exists m, (DB.pageSize dbs), off, None, [EvFdatasync (Some e)].
           split; [reflexivity | right; eauto].
        -- exists [ev], (EvFdatasync (Some e)). split; [reflexivity |].
           split; [constructor; [reflexivity | constructor] | reflexivity].
      * exists None, 1%nat, [ev; EvFdatasync None].
        split; [by rewrite <- app_assoc |]. split.
        -- exists m, (DB.pageSize dbs), off, None, [EvFdatasync None].
           split; [reflexivity | right; eauto].
        -- repeat constructor.
    + exists None, 1%nat, [ev]. split; [reflexivity |]. split.
      * exists m, (DB.pageSize dbs), off, None, []. split; [reflexivity | by left].
      * repeat constructor.
Qed.

(** The three ways [commitFreelist] of an open writable transaction ends: a
    panic before anything is logged; an error of [freelist.write], followed
    by the rollback; or the freelist page in the dirty-page cache. *)
Lemma commitFreelist_cases (E : env) (s : state) (m : meta.t)
      (ps : gmap Z page) :
  db (tx s) = true -> writable (tx s) = true ->
  meta (tx s) = Some m -> pages (tx s) = Some ps ->
  (exists msg, commitFreelist E s = Some (Fatal msg, s)) \/
  (exists p e,
      commitFreelist E s
      = Some (Ret (Some e),
              mkState (closed (tx s)) (database s)
                      ((log s ++ [EvFreelistWrite p (Some e)])
                         ++ rollback_events E (log s ++ [EvFreelistWrite p (Some e)])
                                            (meta.txid m)))) \/
  (exists p,
      commitFreelist E s
      = Some (Ret None,
              mkState (set_pages (Some (<[id p := p]> ps)) (tx s)) (database s)
                      (log s ++ [EvFreelistWrite p None]))).
Proof.
  destruct s as [[w mg d me r pgs sw hs] dbs lg].
  cbn [tx db writable meta pages]. intros -> -> -> ->.
  unfold commitFreelist. run.
  repeat match goal with
         | |- context [if ?c then _ else _] =>
             destruct c; run; try (left; eexists; reflexivity)
         end.
  all: match goal with
       | |- context [freelist_write ?E0 ?l ?p] =>
           destruct (freelist_write E0 l p) as [n [e |]]
       end; run.
  all: try (right; right; eexists; reflexivity).
  all: right; left; eexists _, _;
    match goal with
    | |- context [rollback ?E0 ?s0] =>
        rewrite (rollback_writable E0 s0 m) by reflexivity
    end; reflexivity.
Qed.

Lemma bump_writes_shape (n : nat) (x : Tx.t) :
  exists sw',
    bump_writes n x
    = mk (writable x) (managed x) (db x) (meta x) (root x) (pages x) sw'
         (commitHandlers x).
Proof.
  induction n as [| n [sw' IH]].
  - exists (stats_Write x). destruct x. reflexivity.
  - change (bump_writes (S n) x) with
      ((fun y => mk (writable y) (managed y) (db y) (meta y) (root y)
                    (pages y) (int64 (stats_Write y + 1)) (commitHandlers y))
         (bump_writes n x)).
    rewrite IH. cbn. eauto.
Qed.

Lemma run_handlers_log (hs : list nat) (s : state) :
  run_handlers hs s
  = Some (Ret tt, mkState (tx s) (database s) (log s ++ map EvHandler hs)).
Proof.
  revert s. induction hs as [| h hs IH]; intros [x dbs lg].
  - cbn. rewrite app_nil_r. reflexivity.
  - cbn [run_handlers]. run. rewrite IH. cbn [tx database log map].
    rewrite <- app_assoc. reflexivity.
Qed.

(** The grow step: taken exactly when the page high-water mark moved up. *)
Definition grow_step (grew : bool) (g : list event) : Prop :=
  if grew then exists sz, g = [EvGrow sz None] else g = [].

(** The consistency check: run in strict mode only, and passed. *)
Definition check_step (strict : bool) (c : list event) : Prop :=
  c = if strict then [EvCheck []] else [].

(** The order of a commit as the specification has it.  [grew]: the page
    high-water mark is above what it was after the rebalance; [strict]: the
    database's strict mode; [handlers]: the registered callbacks. *)
Inductive commit_run (grew strict : bool) (handlers : list nat)
  : list event -> outcome (option error) -> Prop :=
| run_spill_failed e rb :
    rollback_run rb ->
    commit_run grew strict handlers
      ([EvRebalance; EvSpill (Some e)] ++ rb) (Ret (Some e))
| run_freelist_panic r msg :
    commit_run grew strict handlers
      [EvRebalance; EvSpill None; EvSetRoot r] (Fatal msg)
| run_freelist_failed r p e rb :
    rollback_run rb ->
    commit_run grew strict handlers
      ([EvRebalance; EvSpill None; EvSetRoot r; EvFreelistWrite p (Some e)] ++ rb)
      (Ret (Some e))
| run_grow_failed r p sz e rb :
    grew = true -> rollback_run rb ->
    commit_run grew strict handlers
      ([EvRebalance; EvSpill None; EvSetRoot r; EvFreelistWrite p None;
        EvGrow sz (Some e)] ++ rb)
      (Ret (Some e))
| run_write_failed r p g wr e rb :
    grow_step grew g -> write_run wr (Some e) -> rollback_run rb ->
    commit_run grew strict handlers
      ([EvRebalance; EvSpill None; EvSetRoot r; EvFreelistWrite p None]
         ++ g ++ wr ++ rb)
      (Ret (Some e))
| run_check_failed r p g wr errs msg :
    strict = true -> errs <> [] ->
    grow_step grew g -> write_run wr None ->
    commit_run grew strict handlers
      ([EvRebalance; EvSpill None; EvSetRoot r; EvFreelistWrite p None]
         ++ g ++ wr ++ [EvCheck errs])
      (Fatal msg)
| run_meta_failed r p g wr c mw e rb :
    grow_step grew g -> write_run wr None -> check_step strict c ->
    meta_run mw (Some e) -> rollback_run rb ->
    commit_run grew strict handlers
      ([EvRebalance; EvSpill None; EvSetRoot r; EvFreelistWrite p None]
         ++ g ++ wr ++ c ++ mw ++ rb)
      (Ret (Some e))
| run_committed r p g wr c mw :
    grow_step grew g -> write_run wr None -> check_step strict c ->
    meta_run mw None ->
    commit_run grew strict handlers
      ([EvRebalance; EvSpill None; EvSetRoot r; EvFreelistWrite p None]
         ++ g ++ wr ++ c ++ mw ++ [EvUnlock] ++ map EvHandler handlers)
      (Ret None).

(** What [Commit] does from the meta write on, and from the dirty-page write
    on, as these stand in its body. *)
Definition commit_finish (E : env) : M (option error) :=
  r ← writeMeta E;
  match r with
  | Some e => rollback E;; mret (Some e)
  | None =>
      close;;
      s ← get;
      run_handlers (commitHandlers (tx s));;
      mret None
  end.

Definition commit_tail (E : env) : M (option error) :=
  r ← write E;
  match r with
  | Some e => rollback E;; mret (Some e)
  | None =>
      s ← get;
      (if DB.StrictMode (database s) then
         let errs := tx_Check E (log s) in
         emit (EvCheck errs);;
         if (0 <? length errs)%nat then
           panic ("check fail: " +:+ String.concat (String "010"%char EmptyString) errs)
         else mret tt
       else mret tt);;
      r ← writeMeta E;
      match r with
      | Some e => rollback E;; mret (Some e)
      | None =>
          close;;
          s ← get;
          run_handlers (commitHandlers (tx s));;
          mret None
      end
  end.

Lemma commit_finish_runs (E : env) (s : state) (m : meta.t) :
  db (tx s) = true -> writable (tx s) = true -> meta (tx s) = Some m ->
  exists out s' tr,
    commit_finish E s = Some (Ret out, s') /\
    log s' = log s ++ tr /\
    db (tx s') = false /\
    ((exists mw e rb,
         meta_run mw (Some e) /\ rollback_run rb /\
         tr = mw ++ rb /\ out = Some e) \/
     (exists mw,
         meta_run mw None /\
         tr = mw ++ [EvUnlock] ++ map EvHandler (commitHandlers (tx s)) /\
         out = None)).
Proof.
  intros Hdb Hw Hmeta.
  destruct (writeMeta_total E s m Hmeta) as (r1 & n1 & mw & Hrun & Hmw).
  destruct s as [[w mg d me r ps sw hs] dbs lg].
  cbn [tx database log db writable meta commitHandlers] in *. subst w d me.
  unfold commit_finish. unfold mbind at 1, M_bind at 1. rewrite Hrun. clear Hrun.
  destruct (bump_writes_shape n1 (mk true mg true (Some m) r ps sw hs)) as [sw1 ->].
  cbn [writable managed db meta root pages commitHandlers].
  destruct r1 as [e |]; run.
  - erewrite rollback_writable by reflexivity. cbn [tx database log].
    eexists _, _, (mw ++ rollback_events E _ _).
    split; [reflexivity |]. split; [by rewrite <- app_assoc |].
    split; [reflexivity |]. left.
    eexists mw, e, _. split; [exact Hmw |].
    split; [apply rollback_events_run | split; reflexivity].
  - rewrite close_writable by reflexivity. cbn [tx database log closed].
    unfold set_pages, set_root, set_meta, set_db.
    cbn [writable managed db meta root pages stats_Write commitHandlers].
    rewrite run_handlers_log. cbn [tx database log].
    eexists _, _, (mw ++ [EvUnlock] ++ map EvHandler hs).
    split; [reflexivity |]. split; [by rewrite <- !app_assoc |].
    split; [reflexivity |]. right.
    exists mw. split; [exact Hmw | split; reflexivity].
Qed.

Inductive tail_run (strict : bool) (handlers : list nat)
  : list event -> outcome (option error) -> Prop :=
| tail_write_failed wr e rb :
    write_run wr (Some e) -> rollback_run rb ->
    tail_run strict handlers (wr ++ rb) (Ret (Some e))
| tail_check_failed wr errs msg :
    strict = true -> errs <> [] -> write_run wr None ->
    tail_run strict handlers (wr ++ [EvCheck errs]) (Fatal msg)
| tail_meta_failed wr c mw e rb :
    write_run wr None -> check_step strict c -> meta_run mw (Some e) ->
    rollback_run rb ->
    tail_run strict handlers (wr ++ c ++ mw ++ rb) (Ret (Some e))
| tail_committed wr c mw :
    write_run wr None -> check_step strict c -> meta_run mw None ->
    tail_run strict handlers
      (wr ++ c ++ mw ++ [EvUnlock] ++ map EvHandler handlers) (Ret None).

Lemma commit_tail_runs (E : env) (s : state) (m : meta.t) :
  1 <= maxAllocSize E - 1 ->
  db (tx s) = true -> writable (tx s) = true -> meta (tx s) = Some m ->
  exists out s' tr,
    commit_tail E s = Some (out, s') /\
    log s' = log s ++ tr /\
    tail_run (DB.StrictMode (database s)) (commitHandlers (tx s)) tr out /\
    (forall e, out = Ret e -> db (tx s') = false).
Proof.
  intros HL Hdb Hw Hmeta.
  destruct s as [[w mg d me r ps sw hs] dbs lg].
  cbn [tx database log db writable meta commitHandlers] in *. subst w d me.
  unfold commit_tail. fold (commit_finish E).
  unfold mbind at 1, M_bind at 1.
  destruct (write_total E {| tx := mk true mg true (Some m) r ps sw hs;
                             database := dbs; log := lg |} HL)
    as (r1 & n1 & wr & Hrun1 & Hwr).
  rewrite Hrun1. clear Hrun1. cbn [tx database log].
  destruct (bump_writes_shape n1 (set_pages (Some ∅) (mk true mg true (Some m) r ps sw hs)))
    as [sw1 ->].
  cbn [set_pages writable managed db meta root pages commitHandlers].
  destruct r1 as [e |].
  { run. erewrite rollback_writable by reflexivity. cbn [tx database log].
    eexists _, _, (wr ++ rollback_events E _ _).
    split; [reflexivity |]. split; [by rewrite <- app_assoc |].
    split; [| reflexivity].
    apply tail_write_failed; [exact Hwr | apply rollback_events_run]. }
  assert (Hfinish : forall c,
             check_step (DB.StrictMode dbs) c ->
             exists out s' tr,
               commit_finish E {| tx := mk true mg true (Some m) r (Some ∅) sw1 hs;
                                  database := dbs; log := (lg ++ wr) ++ c |}
               = Some (out, s') /\
               log s' = lg ++ tr /\
               tail_run (DB.StrictMode dbs) hs tr out /\
               (forall e, out = Ret e -> db (tx s') = false)).
  { intros c Hc.
    destruct (commit_finish_runs E
                {| tx := mk true mg true (Some m) r (Some ∅) sw1 hs;
                   database := dbs; log := (lg ++ wr) ++ c |} m
                eq_refl eq_refl eq_refl)
      as (out & s' & tr & Hrun & Hlog & Hclosed & Hcases).
    cbn [tx database log commitHandlers] in *.
    exists (Ret out), s', (wr ++ c ++ tr). split; [exact Hrun |].
    split; [by rewrite Hlog, <- !app_assoc |].
    split; [| intros _ _; exact Hclosed].
    destruct Hcases as [(mw & e & rb & Hmw & Hrb & -> & ->) | (mw & Hmw & -> & ->)].
    - apply tail_meta_failed; assumption.
    - apply tail_committed; assumption. }
  run. fold (commit_finish E).
  destruct (DB.StrictMode dbs) eqn:Hstrict; run.
  - set (errs := tx_Check E (lg ++ wr)).
    destruct errs as [| err errs'] eqn:Herrs; cbn [length Nat.ltb Nat.leb]; run.
    + apply (Hfinish [EvCheck []]). reflexivity.
    + eexists _, _, (wr ++ [EvCheck (err :: errs')]).
      split; [reflexivity |]. split; [by rewrite <- app_assoc |].
      split; [| discriminate].
      apply tail_check_failed; [reflexivity | discriminate | exact Hwr].
  - destruct (Hfinish [] eq_refl) as (out & s' & tr & Hrun & Hrest).
    rewrite app_nil_r in Hrun. eauto.
Qed.



(** A commit of the sample transaction, computed: every step in order, the
    handlers last, after the unlock. *)
Example Commit_sample_run :
  let fl := mkPage 2 freelistPageFlag 2 0 in
  let p514 := mkPage 514 branchPageFlag 2 0 in
  let p515 := mkPage 515 leafPageFlag 2 1 in
  exists s',
    Commit Sample.quiet (Sample.opened true) = Some (Ret None, s') /\
    log s' = [EvRebalance; EvSpill None; EvSetRoot 514;
              EvFreelistWrite fl None;
              EvGrow 2121728 None;
              EvWriteAt (DirtyPage fl 0) 4096 8192 None;
              EvWriteAt (DirtyPage p514 0) 4096 2105344 None;
              EvWriteAt (DirtyPage p515 0) 8192 2109440 None;
              EvFdatasync None; EvPoolPut fl; EvPoolPut p514;
              EvCheck [];
              EvWriteAt (MetaBuf (meta.mk (bucket.mk 514 0) 517 8 8)) 4096 0 None;
              EvFdatasync None;
              EvUnlock; EvHandler 1; EvHandler 2] /\
    db (tx s') = false.
Proof. eexists. vm_compute. repeat split. Qed.

(** The same commit on a file that fails at the second dirty page: the error
    comes back after the rollback, and no handler runs. *)
Example Commit_disk_full_run :
  let fl := mkPage 2 freelistPageFlag 2 0 in
  let p514 := mkPage 514 branchPageFlag 2 0 in
  exists s',
    Commit Sample.disk_full (Sample.opened true)
    = Some (Ret (Some (ErrOther "no space left on device")), s') /\
    log s' = [EvRebalance; EvSpill None; EvSetRoot 514;
              EvFreelistWrite fl None;
              EvGrow 2121728 None;
              EvWriteAt (DirtyPage fl 0) 4096 8192 None;
              EvWriteAt (DirtyPage p514 0) 4096 2105344
                        (Some (ErrOther "no space left on device"));
              EvFreelistRollback 8; EvFreelistReload; EvUnlock] /\
    db (tx s') = false.
Proof. eexists. vm_compute. repeat split. Qed.

End TxFacts.

(** * Further properties of the page codec *)

Module CheckFacts.
Import Page.

Lemma fastCheck_passed (p : page) (i : Z) :
  fastCheck p i = Ret tt ->
  id p = i /\
  (flags p = branchPageFlag \/ flags p = leafPageFlag \/
   flags p = metaPageFlag \/ flags p = freelistPageFlag).
Proof.
  intros Hok. unfold fastCheck in Hok.
  destruct (Z.eqb_spec (id p) i) as [Heq | Hne]; [| discriminate].
  split; [exact Heq |]. cbn [negb] in Hok.
  destruct (Z.eq_dec (flags p) branchPageFlag) as [H1 | H1]; [tauto |].
  destruct (Z.eq_dec (flags p) leafPageFlag) as [H2 | H2]; [tauto |].
  destruct (Z.eq_dec (flags p) metaPageFlag) as [H4 | H4]; [tauto |].
  destruct (Z.eq_dec (flags p) freelistPageFlag) as [H16 | H16]; [tauto |].
  pose proof (TypFacts.fastCheck_single_flag_only p H1 H2 H4 H16) as Hf.
  unfold fastCheck in Hf. rewrite Z.eqb_refl in Hf. cbn [negb] in Hf.
  rewrite Hf in Hok. discriminate.
Qed.

Lemma fastCheck_single_flag (p : page) :
  flags p = branchPageFlag \/ flags p = leafPageFlag \/
  flags p = metaPageFlag \/ flags p = freelistPageFlag ->
  fastCheck p (id p) = Ret tt.
Proof.
  intros Hf. unfold fastCheck. rewrite Z.eqb_refl.
  destruct Hf as [-> | [-> | [-> | ->]]]; reflexivity.
Qed.

(** X1.  [fastCheck] lets a page through exactly when the page carries the id
    it was asked for under and its flags are one of the four type flags,
    nothing more and nothing less; an id mismatch is reported first, whatever
    the flags are. *)
Theorem fastCheck_accepts_exactly (p : page) (i : Z) :
  (fastCheck p i = Ret tt <->
   id p = i /\
   (flags p = branchPageFlag \/ flags p = leafPageFlag \/
    flags p = metaPageFlag \/ flags p = freelistPageFlag)) /\
  (id p <> i ->
   fastCheck p i = Fatal "Page expected to be: %v, but self identifies as %v").
Proof.
  split.
  - split; [apply fastCheck_passed |].
    intros [<- Hf]. apply fastCheck_single_flag. exact Hf.
  - intros Hne. unfold fastCheck.
    rewrite (proj2 (Z.eqb_neq (id p) i) Hne). reflexivity.
Qed.

(** X2.  A page that passed [fastCheck] is named by [typ] after its one flag:
    "branch", "leaf", "meta" or "freelist", never "unknown<..>". *)
Theorem fastCheck_then_typ (p : page) (i : Z) :
  fastCheck p i = Ret tt ->
  id p = i /\
  (flags p = branchPageFlag /\ typ p = "branch" \/
   flags p = leafPageFlag /\ typ p = "leaf" \/
   flags p = metaPageFlag /\ typ p = "meta" \/
   flags p = freelistPageFlag /\ typ p = "freelist").
Proof.
  intros Hok. destruct (fastCheck_passed p i Hok) as [Hid Hf].
  split; [exact Hid |]. unfold typ.
  destruct Hf as [H | [H | [H | H]]]; rewrite H.
  - left. split; reflexivity.
  - right; left. split; reflexivity.
  - right; right; left. split; reflexivity.
  - right; right; right. split; reflexivity.
Qed.

Lemma fastCheck_then_typ_witness :
  id (mkPage 5 freelistPageFlag 3 0) = 5 /\
  (flags (mkPage 5 freelistPageFlag 3 0) = branchPageFlag /\
   typ (mkPage 5 freelistPageFlag 3 0) = "branch" \/
   flags (mkPage 5 freelistPageFlag 3 0) = leafPageFlag /\
   typ (mkPage 5 freelistPageFlag 3 0) = "leaf" \/
   flags (mkPage 5 freelistPageFlag 3 0) = metaPageFlag /\
   typ (mkPage 5 freelistPageFlag 3 0) = "meta" \/
   flags (mkPage 5 freelistPageFlag 3 0) = freelistPageFlag /\
   typ (mkPage 5 freelistPageFlag 3 0) = "freelist").
Proof. apply (fastCheck_then_typ (mkPage 5 freelistPageFlag 3 0) 5). reflexivity. Defined.

End CheckFacts.

Module UnpackFacts.
Import Page Page.leafPageElement.

(** X3.  Every 64-bit word is a leaf element: its four accessors stay within
    the field widths (1, 26, 13 and 24 bits), and [fill] on what they return
    builds the same word again. With the round trip in the other direction,
    packing is a bijection between the in-range field values and the words. *)
Theorem accessors_then_fill (d : Z) :
  0 <= d < 2 ^ 64 ->
  0 <= flags (mk d) <= 1 /\ 0 <= pos (mk d) <= 2 ^ 26 - 1 /\
  0 <= ksize (mk d) <= 2 ^ 13 - 1 /\ 0 <= vsize (mk d) <= 2 ^ 24 - 1 /\
  fill (flags (mk d)) (pos (mk d)) (ksize (mk d)) (vsize (mk d)) = Ret (mk d).
Proof.
  intros Hd. set (n := mk d).
  assert (Hf : flags n = d / 2 ^ 63).
  { unfold flags, shr64, uint32. cbn [data].
    rewrite Z.shiftr_div_pow2 by lia. apply Z.mod_small.
    split; [apply Z.div_pos; lia |].
    apply Z.lt_le_trans with 2; [| lia].
    apply Z.div_lt_upper_bound; lia. }
  assert (Hp : pos n = (d / 2 ^ 37) mod 2 ^ 26).
  { unfold pos, shr64, uint32. cbn [data].
    change 0x3FFFFFF with (2 ^ 26 - 1).
    rewrite land_mask by lia. rewrite Z.shiftr_div_pow2 by lia.
    apply mod_mod_pow2. lia. }
  assert (Hk : ksize n = (d / 2 ^ 24) mod 2 ^ 13).
  { unfold ksize, shr64, uint32. cbn [data].
    change 0x1FFF with (2 ^ 13 - 1).
    rewrite land_mask by lia. rewrite Z.shiftr_div_pow2 by lia.
    apply mod_mod_pow2. lia. }
  assert (Hv : vsize n = d mod 2 ^ 24).
  { unfold vsize, uint32. cbn [data].
    change 0xFFFFFF with (2 ^ 24 - 1).
    rewrite land_mask by lia. apply mod_mod_pow2. lia. }
  assert (Bf : 0 <= d / 2 ^ 63 <= 1).
  { split; [apply Z.div_pos; lia |].
    apply Z.lt_succ_r. apply Z.div_lt_upper_bound; lia. }
  pose proof (Z.mod_pos_bound (d / 2 ^ 37) (2 ^ 26) ltac:(lia)) as Bp.
  pose proof (Z.mod_pos_bound (d / 2 ^ 24) (2 ^ 13) ltac:(lia)) as Bk.
  pose proof (Z.mod_pos_bound d (2 ^ 24) ltac:(lia)) as Bv.
  rewrite Hf, Hp, Hk, Hv.
  split; [exact Bf |]. split; [lia |]. split; [lia |]. split; [lia |].
  rewrite LeafFacts.fill_data by lia.
  subst n. do 2 f_equal.
  (* the word, cut at bits 24, 37 and 63 *)
  pose proof (Z.div_mod d (2 ^ 24) ltac:(lia)) as E1.
  pose proof (Z.div_mod (d / 2 ^ 24) (2 ^ 13) ltac:(lia)) as E2.
  pose proof (Z.div_mod (d / 2 ^ 37) (2 ^ 26) ltac:(lia)) as E3.
  assert (D2 : d / 2 ^ 24 / 2 ^ 13 = d / 2 ^ 37).
  { rewrite Z.div_div by lia. reflexivity. }
  assert (D3 : d / 2 ^ 37 / 2 ^ 26 = d / 2 ^ 63).
  { rewrite Z.div_div by lia. reflexivity. }
  rewrite D2 in E2. rewrite D3 in E3.
  set (q63 := d / 2 ^ 63) in *. set (q37 := d / 2 ^ 37) in *.
  set (q24 := d / 2 ^ 24) in *.
  set (r26 := q37 mod 2 ^ 26) in *. set (r13 := q24 mod 2 ^ 13) in *.
  set (r24 := d mod 2 ^ 24) in *.
  clearbody q63 q37 q24 r26 r13 r24. lia.
Qed.

Lemma accessors_then_fill_witness :
  0 <= flags (mk 0xFEDCBA9876543210) <= 1 /\
  0 <= pos (mk 0xFEDCBA9876543210) <= 2 ^ 26 - 1 /\
  0 <= ksize (mk 0xFEDCBA9876543210) <= 2 ^ 13 - 1 /\
  0 <= vsize (mk 0xFEDCBA9876543210) <= 2 ^ 24 - 1 /\
  fill (flags (mk 0xFEDCBA9876543210)) (pos (mk 0xFEDCBA9876543210))
       (ksize (mk 0xFEDCBA9876543210)) (vsize (mk 0xFEDCBA9876543210))
  = Ret (mk 0xFEDCBA9876543210).
Proof. apply (accessors_then_fill 0xFEDCBA9876543210). lia. Defined.

End UnpackFacts.

(** * Further properties of the merge of page-id slices *)

Module MergeTotal.
Import Page sort.

(** The binary search on any predicate, monotone or not: the result is
    bracketed by a false just before it and a true at it. *)
Lemma Search_loop_bracket (f : nat -> bool) (i j : nat) :
  (i <= j)%nat ->
  (i <= Search_loop f i j <= j)%nat /\
  (Search_loop f i j < j -> f (Search_loop f i j) = true)%nat /\
  (i < Search_loop f i j -> f (Search_loop f i j - 1)%nat = false)%nat.
Proof.
  funelim (Search_loop f i j); intros Hij.
  - set (h := Nat.div2 (i + j)) in *.
    assert (Hh : (i <= h < j)%nat).
    { subst h. pose proof (Nat.div2_odd (i + j)) as Hd.
      destruct (Nat.odd (i + j)); simpl in Hd; lia. }
    clear Heqcall. cbn zeta. fold h.
    destruct (f h) eqn:Hfh.
    + destruct H as (Hb & Ht & Hf); [lia |].
      split; [lia |]. split; [| exact Hf].
      intros Hlt. destruct (decide (Search_loop f i h = h)) as [-> | Hne];
        [exact Hfh | apply Ht; lia].
    + destruct H0 as (Hb & Ht & Hf); [lia |].
      split; [lia |]. split; [exact Ht |].
      intros Hlt. destruct (decide (Search_loop f (S h) j = S h)) as [-> | Hne].
      * replace (S h - 1)%nat with h by lia. exact Hfh.
      * apply Hf. lia.
  - assert (i = j) by lia. subst j. repeat split; lia.
Qed.

(** One more round is owed when the head of [lead] is above the head of
    [follow]: that round appends nothing and only swaps the two. *)
Definition swap_first (lead follow : list Z) : nat :=
  match lead, follow with
  | l0 :: _, f0 :: _ => if f0 <? l0 then 1%nat else 0%nat
  | _, _ => 0%nat
  end.

(** The loop of [mergepgids] on any two slices: it finishes within two rounds
    per element, never reads [follow[0]] of an empty slice, and what it
    appends, followed by the rest of [follow], holds every element of the two
    slices as often as they did. *)
Lemma merge_loop_total (fuel : nat) :
  forall merged lead follow : list Z,
    follow <> [] ->
    (2 * (length lead + length follow) + swap_first lead follow < fuel)%nat ->
    exists m' f' r,
      merge_loop fuel merged lead follow = Some (Ret (m', f')) /\
      m' ++ f' = merged ++ r /\ r ≡ₚ lead ++ follow.
Proof.
  induction fuel as [| k IH]; intros merged lead follow Hne Hfuel; [lia |].
  destruct lead as [| l0 lead'].
  { exists merged, follow, follow. cbn. repeat split; auto. }
  destruct follow as [| f0 follow']; [congruence |]. clear Hne.
  cbn [merge_loop].
  set (lead := l0 :: lead') in *. set (follow := f0 :: follow') in *.
  set (f := fun i : nat => f0 <? default 0 (lead !! i)).
  destruct (Search_loop_bracket f 0 (length lead) ltac:(lia)) as (Hb & Ht & Hf).
  fold (Search (length lead) f) in Hb, Ht, Hf.
  set (n := Search (length lead) f) in *.
  destruct (Nat.leb_spec (length lead) n) as [Hge | Hlt].
  - rewrite take_ge by lia.
    exists (merged ++ lead), follow, (lead ++ follow).
    split; [reflexivity |]. split; [by rewrite <- app_assoc | done].
  - specialize (Ht Hlt). unfold f in Ht.
    destruct (lookup_lt_is_Some_2 lead n Hlt) as [x Hx].
    rewrite Hx in Ht. cbn in Ht. apply Z.ltb_lt in Ht.
    pose proof (drop_S lead x n Hx) as Hdrop.
    destruct (IH (merged ++ take n lead) follow (drop n lead))
      as (m' & f' & r' & Hrun & Hcat & Hperm).
    + rewrite Hdrop. discriminate.
    + rewrite length_drop. rewrite Hdrop. subst follow. cbn [swap_first].
      replace (x <? f0) with false by (symmetry; apply Z.ltb_ge; lia).
      destruct n as [| n'].
      * cbn in Hx. injection Hx as <-.
        subst lead. cbn [swap_first] in Hfuel.
        replace (f0 <? l0) with true in Hfuel by (symmetry; apply Z.ltb_lt; lia).
        cbn [length] in *. lia.
      * cbn [length] in *. lia.
    + exists m', f', (take n lead ++ r').
      split; [exact Hrun |]. split; [by rewrite Hcat, app_assoc |].
      rewrite Hperm. rewrite (Permutation_app_comm follow).
      rewrite app_assoc. by rewrite take_drop.
Qed.

Lemma mergepgids_run (dst a b : list Z) :
  (length a + length b <= length dst)%nat ->
  exists r,
    mergepgids dst a b = Some (Ret (r ++ drop (length a + length b) dst)) /\
    r ≡ₚ a ++ b.
Proof.
  unfold mergepgids. intros Hlen.
  - destruct (Nat.ltb_spec (length dst) (length a + length b)) as [Hbad | _];
      [lia |].
    destruct a as [| a0 a'].
    { exists b. split; [| done]. cbn [length Nat.add] in *.
      by rewrite MergeFacts.copy_prefix by lia. }
    destruct b as [| b0 b'].
    { exists (a0 :: a'). split; [| by rewrite app_nil_r].
      cbn [length] in *. rewrite Nat.add_0_r in *.
      by rewrite MergeFacts.copy_prefix by (cbn [length]; lia). }
    set (a := a0 :: a') in *. set (b := b0 :: b') in *.
    destruct (Z.ltb_spec b0 a0) as [Hlt | Hge].
    + destruct (merge_loop_total (2 * (length a + length b) + 2) [] b a)
        as (m' & f' & r & Hrun & Hcat & Hperm).
      * discriminate.
      * subst a b. cbn [swap_first].
        replace (a0 <? b0) with false by (symmetry; apply Z.ltb_ge; lia).
        cbn [length]. lia.
      * rewrite Hrun. exists r. rewrite app_nil_l in Hcat. rewrite Hcat.
        assert (Hlr : length r = (length a + length b)%nat).
        { rewrite Hperm, length_app. lia. }
        split; [by rewrite MergeFacts.copy_prefix, Hlr by lia |].
        by rewrite Hperm, Permutation_app_comm.
    + destruct (merge_loop_total (2 * (length a + length b) + 2) [] a b)
        as (m' & f' & r & Hrun & Hcat & Hperm).
      * discriminate.
      * subst a b. cbn [swap_first].
        replace (b0 <? a0) with false by (symmetry; apply Z.ltb_ge; lia).
        cbn [length]. lia.
      * rewrite Hrun. exists r. rewrite app_nil_l in Hcat. rewrite Hcat.
        assert (Hlr : length r = (length a + length b)%nat).
        { by rewrite Hperm, length_app. }
        split; [by rewrite MergeFacts.copy_prefix, Hlr by lia | done].
Qed.

(** X4.  [mergepgids] on any two slices: a destination shorter than the two
    together is the panic "mergepgids bad len"; any other destination gets the
    merge in its first [len(a)+len(b)] entries, which hold every id of the two
    inputs as often as they did, and keeps the entries after them. *)
Theorem mergepgids_destination (dst a b : list Z) :
  ((length dst < length a + length b)%nat ->
   mergepgids dst a b = Some (Fatal "mergepgids bad len %d < %d + %d")) /\
  ((length a + length b <= length dst)%nat ->
   exists r,
     mergepgids dst a b = Some (Ret (r ++ drop (length a + length b) dst)) /\
     r ≡ₚ a ++ b /\
     length (r ++ drop (length a + length b) dst) = length dst).
Proof.
  split; intros Hlen.
  - unfold mergepgids.
    destruct (Nat.ltb_spec (length dst) (length a + length b)) as [_ | Hok];
      [reflexivity | lia].
  - destruct (mergepgids_run dst a b Hlen) as (r & Hrun & Hperm).
    exists r. split; [exact Hrun |]. split; [exact Hperm |].
    rewrite length_app, length_drop, Hperm, length_app. lia.
Qed.

Lemma merge_run (a b : list Z) :
  exists o r, merge a b = Some (Ret (o, r)) /\ r ≡ₚ a ++ b.
Proof.
  unfold merge.
  destruct a as [| a0 a']; [exists OfB, b; done |].
  destruct b as [| b0 b'].
  { exists OfA, (a0 :: a'). by rewrite app_nil_r. }
  cbn [length Nat.eqb].
  assert (Hlen : (length (a0 :: a') + length (b0 :: b')
                  <= length (replicate (length (a0 :: a') + length (b0 :: b')) 0%Z))%nat).
  { by rewrite length_replicate. }
  destruct (mergepgids_run
              (replicate (length (a0 :: a') + length (b0 :: b')) 0)
              (a0 :: a') (b0 :: b') Hlen) as (r & Hrun & Hperm).
  cbn [length] in Hrun. rewrite Hrun.
  rewrite drop_ge, app_nil_r by (rewrite length_replicate; cbn; lia).
  exists Fresh, r. done.
Qed.

(** X5.  [merge] never fails and never loses or collapses an id, whatever the
    two slices hold (sorted or not, overlapping or not): it returns, without a
    panic, a slice with every id of [a] and of [b] as often as it occurs in
    the two, so of length [len(a) + len(b)]. *)
Theorem merge_keeps_every_id (a b : list Z) :
  exists o r,
    merge a b = Some (Ret (o, r)) /\
    r ≡ₚ a ++ b /\
    length r = (length a + length b)%nat.
Proof.
  destruct (merge_run a b) as (o & r & Hrun & Hperm).
  exists o, r. split; [exact Hrun |]. split; [exact Hperm |].
  by rewrite Hperm, length_app.
Qed.

End MergeTotal.

Module MergeAscending.
Import Page sort SearchFacts MergeTotal.

Lemma ascending_lookup_le (l : list Z) (i j : nat) (a b : Z) :
  StronglySorted Z.le l -> (i <= j)%nat ->
  l !! i = Some a -> l !! j = Some b -> a <= b.
Proof.
  intros Hs Hij Ha Hb.
  destruct (decide (i = j)) as [-> | Hne].
  - rewrite Ha in Hb. injection Hb as ->. lia.
  - rewrite <- (take_drop j l) in Hs.
    apply (StronglySorted_app_1_elem_of _ _ _ _ _ Hs).
    + apply list_elem_of_lookup. exists i. rewrite lookup_take_lt by lia. exact Ha.
    + apply list_elem_of_lookup. exists 0%nat. rewrite lookup_drop.
      rewrite Nat.add_0_r. exact Hb.
Qed.

Lemma Search_ascending (l : list Z) (x : Z) :
  StronglySorted Z.le l ->
  let n := Search (length l) (fun i => x <? default 0 (l !! i)) in
  (n <= length l)%nat /\
  Forall (fun y => y <= x) (take n l) /\
  Forall (fun y => x < y) (drop n l).
Proof.
  intros Hs n.
  set (f := fun i : nat => x <? default 0 (l !! i)) in *.
  destruct (Search_loop_spec (length l) f 0 (length l)) as (Hb & Hlo & Hhi).
  - intros a b Hab Hb Hfa. unfold f in *.
    destruct (lookup_lt_is_Some_2 l a ltac:(lia)) as [ya Hya].
    destruct (lookup_lt_is_Some_2 l b Hb) as [yb Hyb].
    rewrite Hya in Hfa. rewrite Hyb. cbn in *.
    pose proof (ascending_lookup_le l a b ya yb Hs Hab Hya Hyb).
    apply Z.ltb_lt. apply Z.ltb_lt in Hfa. lia.
  - lia.
  - lia.
  - intros k Hk. lia.
  - intros k Hk1 Hk2. lia.
  - fold (Search (length l) f) in Hb, Hlo, Hhi. fold n in Hb, Hlo, Hhi.
    split; [lia |]. split.
    + apply Forall_lookup. intros k y Hky.
      apply lookup_take_Some in Hky as [Hky Hkn].
      specialize (Hlo k Hkn). unfold f in Hlo. rewrite Hky in Hlo. cbn in Hlo.
      apply Z.ltb_ge in Hlo. exact Hlo.
    + apply Forall_lookup. intros k y Hky.
      rewrite lookup_drop in Hky.
      assert (Hlt : (n + k < length l)%nat) by (apply lookup_lt_is_Some; eauto).
      specialize (Hhi (n + k)%nat ltac:(lia) Hlt). unfold f in Hhi.
      rewrite Hky in Hhi. cbn in Hhi. apply Z.ltb_lt in Hhi. exact Hhi.
Qed.

Lemma ascending_head_le (x0 : Z) (l : list Z) (x : Z) :
  StronglySorted Z.le (x0 :: l) -> x ∈ x0 :: l -> x0 <= x.
Proof.
  intros Hs Hx. apply StronglySorted_cons in Hs as [Hall _].
  apply elem_of_cons in Hx as [-> | Hx]; [lia |].
  rewrite Forall_forall in Hall. exact (Hall x Hx).
Qed.

(** The loop of [mergepgids] on ascending slices that may share ids, the
    lower head leading: every round appends at least one id, and the result
    is ascending with every id as often as the two slices had it. *)
Lemma merge_loop_ascending (fuel : nat) :
  forall merged lead follow : list Z,
    StronglySorted Z.le lead -> StronglySorted Z.le follow -> follow <> [] ->
    (forall l0 f0, head lead = Some l0 -> head follow = Some f0 -> l0 <= f0) ->
    (length lead + length follow < fuel)%nat ->
    exists m' f' r,
      merge_loop fuel merged lead follow = Some (Ret (m', f')) /\
      m' ++ f' = merged ++ r /\
      StronglySorted Z.le r /\ r ≡ₚ lead ++ follow.
Proof.
  induction fuel as [| k IH]; intros merged lead follow Hl Hf Hne Hhd Hfuel;
    [lia |].
  destruct lead as [| l0 lead'].
  { exists merged, follow, follow. cbn. repeat split; auto. }
  destruct follow as [| f0 follow']; [congruence |]. clear Hne.
  cbn [merge_loop].
  set (lead := l0 :: lead') in *. set (follow := f0 :: follow') in *.
  assert (Hl0 : l0 <= f0) by (apply Hhd; reflexivity).
  pose proof (Search_ascending lead f0 Hl) as Hsearch.
  cbn zeta in Hsearch. destruct Hsearch as (Hn & Hlow & Hhigh).
  set (n := Search (length lead) (fun i => f0 <? default 0 (lead !! i))) in *.
  rewrite Forall_forall in Hlow, Hhigh.
  destruct (Nat.leb_spec (length lead) n) as [Hge | Hlt].
  - rewrite take_ge in * by lia.
    exists (merged ++ lead), follow, (lead ++ follow).
    split; [reflexivity |]. split; [by rewrite <- app_assoc |]. split; [| done].
    apply StronglySorted_app_2; [| assumption | assumption].
    intros x1 x2 Hx1 Hx2. pose proof (Hlow x1 Hx1).
    pose proof (ascending_head_le f0 follow' x2 Hf Hx2). lia.
  - assert (Hn1 : (1 <= n)%nat).
    { destruct n as [| n']; [| lia]. rewrite drop_0 in Hhigh.
      specialize (Hhigh l0 ltac:(left)). lia. }
    assert (Hsd : StronglySorted Z.le (drop n lead)).
    { rewrite <- (take_drop n lead) in Hl. by apply StronglySorted_app_1_r in Hl. }
    destruct (IH (merged ++ take n lead) follow (drop n lead))
      as (m' & f' & r' & Hrun & Hcat & Hsr & Hperm).
    + assumption.
    + assumption.
    + intros Hnil. apply (f_equal length) in Hnil.
      rewrite length_drop in Hnil.
      change (length (@nil Z)) with 0%nat in Hnil. lia.
    + intros x y Hx Hy. cbn in Hx. injection Hx as <-.
      apply Z.lt_le_incl. apply Hhigh. apply head_Some_elem_of. exact Hy.
    + rewrite length_drop. lia.
    + exists m', f', (take n lead ++ r').
      split; [exact Hrun |]. split; [by rewrite Hcat, app_assoc |]. split.
      * apply StronglySorted_app_2; [| | assumption].
        -- intros x1 x2 Hx1 Hx2. pose proof (Hlow x1 Hx1).
           rewrite Hperm in Hx2. apply elem_of_app in Hx2 as [Hx2 | Hx2].
           ++ pose proof (ascending_head_le f0 follow' x2 Hf Hx2). lia.
           ++ specialize (Hhigh x2 Hx2). lia.
        -- rewrite <- (take_drop n lead) in Hl. by apply StronglySorted_app_1_l in Hl.
      * rewrite Hperm. rewrite (Permutation_app_comm follow).
        rewrite app_assoc. by rewrite take_drop.
Qed.

Lemma mergepgids_ascending (dst a b : list Z) :
  StronglySorted Z.le a -> StronglySorted Z.le b ->
  (length a + length b <= length dst)%nat ->
  exists r,
    mergepgids dst a b = Some (Ret (r ++ drop (length a + length b) dst)) /\
    StronglySorted Z.le r /\ r ≡ₚ a ++ b.
Proof.
  intros Ha Hb Hlen. unfold mergepgids.
  destruct (Nat.ltb_spec (length dst) (length a + length b)) as [Hbad | _];
    [lia |].
  destruct a as [| a0 a'].
  { exists b. split; [| done]. cbn [length Nat.add] in *.
    by rewrite MergeFacts.copy_prefix by lia. }
  destruct b as [| b0 b'].
  { exists (a0 :: a'). split; [| by rewrite app_nil_r].
    cbn [length] in *. rewrite Nat.add_0_r in *.
    by rewrite MergeFacts.copy_prefix by (cbn [length]; lia). }
  set (a := a0 :: a') in *. set (b := b0 :: b') in *.
  destruct (Z.ltb_spec b0 a0) as [Hlt | Hge].
  - destruct (merge_loop_ascending (2 * (length a + length b) + 2) [] b a)
      as (m' & f' & r & Hrun & Hcat & Hsr & Hperm); try assumption.
    + discriminate.
    + intros x y Hx Hy. cbn in Hx, Hy. injection Hx as <-. injection Hy as <-. lia.
    + lia.
    + rewrite Hrun. exists r. rewrite app_nil_l in Hcat. rewrite Hcat.
      assert (Hlr : length r = (length a + length b)%nat).
      { rewrite Hperm, length_app. lia. }
      split; [by rewrite MergeFacts.copy_prefix, Hlr by lia |].
      split; [done |]. by rewrite Hperm, Permutation_app_comm.
  - destruct (merge_loop_ascending (2 * (length a + length b) + 2) [] a b)
      as (m' & f' & r & Hrun & Hcat & Hsr & Hperm); try assumption.
    + discriminate.
    + intros x y Hx Hy. cbn in Hx, Hy. injection Hx as <-. injection Hy as <-. lia.
    + lia.
    + rewrite Hrun. exists r. rewrite app_nil_l in Hcat. rewrite Hcat.
      assert (Hlr : length r = (length a + length b)%nat).
      { by rewrite Hperm, length_app. }
      split; [by rewrite MergeFacts.copy_prefix, Hlr by lia |]. done.
Qed.

Lemma merge_ascending_run (a b : list Z) :
  StronglySorted Z.le a -> StronglySorted Z.le b ->
  exists o r,
    merge a b = Some (Ret (o, r)) /\ StronglySorted Z.le r /\ r ≡ₚ a ++ b.
Proof.
  intros Ha Hb. unfold merge.
  destruct a as [| a0 a']; [exists OfB, b; done |].
  destruct b as [| b0 b'].
  { exists OfA, (a0 :: a'). by rewrite app_nil_r. }
  cbn [length Nat.eqb].
  destruct (mergepgids_ascending
              (replicate (length (a0 :: a') + length (b0 :: b')) 0)
              (a0 :: a') (b0 :: b')) as (r & Hrun & Hsr & Hperm);
    try assumption.
  { by rewrite length_replicate. }
  cbn [length] in Hrun. rewrite Hrun.
  rewrite drop_ge, app_nil_r by (rewrite length_replicate; cbn; lia).
  exists Fresh, r. done.
Qed.

(** X6.  On ascending slices that may share ids, [merge] returns an ascending
    slice in which an id present in both inputs appears once for each: ids are
    not deduplicated, and the order is still kept. *)
Theorem merge_ascending_with_duplicates (a b : list Z) :
  StronglySorted Z.le a -> StronglySorted Z.le b ->
  exists o r,
    merge a b = Some (Ret (o, r)) /\
    StronglySorted Z.le r /\
    r ≡ₚ a ++ b /\
    (forall x, x ∈ a -> x ∈ b -> exists i j, (i < j)%nat /\ r !! i = Some x /\ r !! j = Some x).
Proof.
  intros Ha Hb.
  destruct (merge_ascending_run a b Ha Hb) as (o & r & Hrun & Hsr & Hperm).
  exists o, r. split; [exact Hrun |]. split; [exact Hsr |].
  split; [exact Hperm |].
  intros x Hxa Hxb.
  apply list_elem_of_split in Hxa as (a1 & a2 & ->).
  apply list_elem_of_split in Hxb as (b1 & b2 & ->).
  assert (Hp2 : r ≡ₚ x :: x :: (a1 ++ a2 ++ b1 ++ b2)).
  { rewrite Hperm. rewrite <- !Permutation_middle. cbn.
    by rewrite <- app_assoc. }
  symmetry in Hp2. apply Permutation_inj in Hp2 as (_ & f & Hinj & Hf).
  exists (Nat.min (f 0%nat) (f 1%nat)), (Nat.max (f 0%nat) (f 1%nat)).
  assert (f 0%nat <> f 1%nat) by (intros Heq; apply Hinj in Heq; discriminate).
  pose proof (Hf 0%nat) as H0. pose proof (Hf 1%nat) as H1. cbn in H0, H1.
  destruct (Nat.min_spec (f 0%nat) (f 1%nat)) as [[? ->] | [? ->]];
    destruct (Nat.max_spec (f 0%nat) (f 1%nat)) as [[? ->] | [? ->]];
    try lia; (split; [lia |]); split; congruence.
Qed.

Lemma merge_ascending_with_duplicates_witness :
  exists o r,
    merge [2; 5; 5; 9] [1; 5; 9; 12] = Some (Ret (o, r)) /\
    StronglySorted Z.le r /\
    r ≡ₚ [2; 5; 5; 9] ++ [1; 5; 9; 12] /\
    (forall x, x ∈ [2; 5; 5; 9] -> x ∈ [1; 5; 9; 12] ->
               exists i j, (i < j)%nat /\ r !! i = Some x /\ r !! j = Some x).
Proof.
  apply (merge_ascending_with_duplicates [2; 5; 5; 9] [1; 5; 9; 12]).
  - repeat (constructor; [| repeat (constructor; [lia |]); constructor]).
    constructor.
  - repeat (constructor; [| repeat (constructor; [lia |]); constructor]).
    constructor.
Defined.

#[local] Instance Zle_antisym : AntiSymm (=) Z.le.
Proof. intros x y ? ?. lia. Qed.

(** X7.  Merging is symmetric on ascending slices: [a.merge(b)] and
    [b.merge(a)] hold the same ids in the same order (only the backing array
    of the result may differ, when one side is empty). *)
Theorem merge_symmetric (a b : list Z) :
  StronglySorted Z.le a -> StronglySorted Z.le b ->
  exists o1 o2 r,
    merge a b = Some (Ret (o1, r)) /\ merge b a = Some (Ret (o2, r)).
Proof.
  intros Ha Hb.
  destruct (merge_ascending_run a b Ha Hb) as (o1 & r1 & Hrun1 & Hs1 & Hp1).
  destruct (merge_ascending_run b a Hb Ha) as (o2 & r2 & Hrun2 & Hs2 & Hp2).
  assert (r1 = r2) as <-.
  { apply (StronglySorted_unique Z.le); [assumption | assumption |].
    rewrite Hp1, Hp2. apply Permutation_app_comm. }
  exists o1, o2, r1. split; assumption.
Qed.

Lemma merge_symmetric_witness :
  exists o1 o2 r,
    merge [3; 4; 8] [1; 4; 20] = Some (Ret (o1, r)) /\
    merge [1; 4; 20] [3; 4; 8] = Some (Ret (o2, r)).
Proof.
  apply (merge_symmetric [3; 4; 8] [1; 4; 20]).
  - repeat (constructor; [| repeat (constructor; [lia |]); constructor]).
    constructor.
  - repeat (constructor; [| repeat (constructor; [lia |]); constructor]).
    constructor.
Defined.

End MergeAscending.

(** * Further properties of the transaction *)

Module StatsFacts.
Import TxStats.

(** Every counter is an int64. *)
Definition in_range (s : t) : Prop :=
  Forall (fun z => - 2 ^ 63 <= z < 2 ^ 63)
         [PageCount s; PageAlloc s; CursorCount s; NodeCount s; NodeDeref s;
          Rebalance s; RebalanceTime s; Split s; Spill s; SpillTime s;
          Write s; WriteTime s].

Lemma int64_add_sub (x y : Z) :
  - 2 ^ 63 <= y < 2 ^ 63 -> int64 (int64 (x + y) - x) = y.
Proof.
  intros Hy. unfold int64.
  replace ((x + y + 2 ^ 63) mod 2 ^ 64 - 2 ^ 63 - x + 2 ^ 63)
    with ((x + y + 2 ^ 63) mod 2 ^ 64 - x) by lia.
  rewrite Zminus_mod_idemp_l.
  replace (x + y + 2 ^ 63 - x) with (y + 2 ^ 63) by lia.
  rewrite Z.mod_small; lia.
Qed.

(** X8.  [Sub] undoes [add], wrap-around included: after [s.add(o)] the
    difference to the snapshot taken before is [o] again, for every earlier
    value of the counters, also when an addition overflowed. The difference of
    a snapshot to itself is all zeros. *)
Theorem Sub_undoes_add (s o : t) :
  in_range o ->
  Sub (add s o) s = o /\ Sub s s = mk 0 0 0 0 0 0 0 0 0 0 0 0.
Proof.
  intros Ho. split.
  - destruct s, o. unfold in_range in Ho. cbn in Ho.
    repeat match goal with
           | H : Forall _ (_ :: _) |- _ =>
               apply Forall_cons in H as [? H]
           end.
    unfold Sub, add. cbn. unfold AddInt64.
    rewrite !int64_add_sub by assumption. reflexivity.
  - destruct s. unfold Sub. cbn. rewrite !Z.sub_diag. reflexivity.
Qed.

Lemma Sub_undoes_add_witness :
  Sub (add (mk (2 ^ 63 - 1) 0 0 0 0 0 0 0 0 0 7 0) (mk 5 4096 1 2 3 0 0 0 0 0 1 900))
      (mk (2 ^ 63 - 1) 0 0 0 0 0 0 0 0 0 7 0)
  = mk 5 4096 1 2 3 0 0 0 0 0 1 900 /\
  Sub (mk (2 ^ 63 - 1) 0 0 0 0 0 0 0 0 0 7 0) (mk (2 ^ 63 - 1) 0 0 0 0 0 0 0 0 0 7 0)
  = mk 0 0 0 0 0 0 0 0 0 0 0 0.
Proof.
  apply (Sub_undoes_add (mk (2 ^ 63 - 1) 0 0 0 0 0 0 0 0 0 7 0)
                        (mk 5 4096 1 2 3 0 0 0 0 0 1 900)).
  unfold in_range. cbn. repeat (constructor; [lia |]). constructor.
Defined.

End StatsFacts.

Module TxMore.
Import Page Tx TxFacts.

(** X9.  [Rollback] on a managed transaction fails its assertion; on a closed
    one it returns [ErrTxClosed] and changes nothing; on an open one it
    returns nil and leaves the transaction closed. A writable transaction
    hands its pending pages back to the freelist and releases the writer lock;
    a read-only one is only removed from the database's list. A rollback the
    user asks for never reloads the freelist from disk. *)
Theorem Rollback_cases (s : state) :
  (managed (tx s) = true ->
   Rollback s = Some (Fatal "assertion failed: managed tx rollback not allowed", s)) /\
  (managed (tx s) = false -> db (tx s) = false ->
   Rollback s = Some (Ret (Some ErrTxClosed), s)) /\
  (forall m,
      managed (tx s) = false -> db (tx s) = true -> writable (tx s) = true ->
      meta (tx s) = Some m ->
      Rollback s
      = Some (Ret None,
              mkState (closed (tx s)) (database s)
                      (log s ++ [EvFreelistRollback (meta.txid m); EvUnlock]))) /\
  (managed (tx s) = false -> db (tx s) = true -> writable (tx s) = false ->
   Rollback s
   = Some (Ret None,
           mkState (closed (tx s)) (database s) (log s ++ [EvRemoveTx]))).
Proof.
  destruct s as [[w mg d me r ps sw hs] dbs lg].
  cbn [tx database log managed db writable meta].
  split; [| split; [| split]].
  - intros ->. reflexivity.
  - intros -> ->. reflexivity.
  - intros m -> -> -> ->. unfold Rollback, nonPhysicalRollback, close. run.
    cbn [closed set_pages set_root set_meta set_db writable managed db meta root
         pages stats_Write commitHandlers].
    rewrite <- app_assoc. reflexivity.
  - intros -> -> ->. reflexivity.
Qed.

(** X10.  The rollback [Commit] runs after a failure and the one the user asks
    for leave the same transaction and database behind; their calls differ by
    one only: after a failure the freelist is also reloaded from disk, when
    the transaction is writable and the file is still mapped. On a closed
    transaction neither does anything. *)
Theorem rollback_differs_by_reload (E : env) (s : state) (m : meta.t) :
  (db (tx s) = true -> meta (tx s) = Some m) ->
  exists x tr tr',
    rollback E s = Some (Ret tt, mkState x (database s) (log s ++ tr)) /\
    nonPhysicalRollback s = Some (Ret tt, mkState x (database s) (log s ++ tr')) /\
    db x = false /\
    (db (tx s) = false -> x = tx s /\ tr = [] /\ tr' = []) /\
    (db (tx s) = true -> writable (tx s) = false ->
     tr = [EvRemoveTx] /\ tr' = [EvRemoveTx]) /\
    (db (tx s) = true -> writable (tx s) = true ->
     tr' = [EvFreelistRollback (meta.txid m); EvUnlock] /\
     tr = if db_data E (log s ++ [EvFreelistRollback (meta.txid m)])
          then [EvFreelistRollback (meta.txid m); EvFreelistReload; EvUnlock]
          else tr').
Proof.
  destruct s as [[w mg d me r ps sw hs] dbs lg].
  cbn [tx database log db writable meta]. intros Hmeta.
  unfold rollback, nonPhysicalRollback, close. run.
  destruct d; [rewrite (Hmeta eq_refl); destruct w |]; run.
  - destruct (db_data E (lg ++ [EvFreelistRollback (meta.txid m)])) eqn:Hd; run.
    + eexists _, [EvFreelistRollback (meta.txid m); EvFreelistReload; EvUnlock],
        [EvFreelistRollback (meta.txid m); EvUnlock].
      split; [by rewrite <- !app_assoc |]. split; [by rewrite <- !app_assoc |].
      split; [reflexivity |].
      split; [discriminate |]. split; [discriminate |]. intros _ _. done.
    + eexists _, [EvFreelistRollback (meta.txid m); EvUnlock],
        [EvFreelistRollback (meta.txid m); EvUnlock].
      split; [by rewrite <- !app_assoc |]. split; [by rewrite <- !app_assoc |].
      split; [reflexivity |].
      split; [discriminate |]. split; [discriminate |]. intros _ _. done.
  - eexists _, [EvRemoveTx], [EvRemoveTx].
    split; [reflexivity |]. split; [reflexivity |]. split; [reflexivity |].
    split; [discriminate |]. split; [done | discriminate].
  - eexists _, [], [].
    split; [by rewrite app_nil_r |]. split; [by rewrite app_nil_r |].
    split; [reflexivity |].
    split; [done |]. split; discriminate.
Qed.

Lemma rollback_differs_by_reload_witness :
  exists x tr tr',
    rollback Sample.quiet (Sample.opened true)
    = Some (Ret tt, mkState x Sample.db0 ([] ++ tr)) /\
    nonPhysicalRollback (Sample.opened true)
    = Some (Ret tt, mkState x Sample.db0 ([] ++ tr')) /\
    db x = false /\
    (true = false -> x = tx (Sample.opened true) /\ tr = [] /\ tr' = []) /\
    (true = true -> true = false -> tr = [EvRemoveTx] /\ tr' = [EvRemoveTx]) /\
    (true = true -> true = true ->
     tr' = [EvFreelistRollback 8; EvUnlock] /\
     tr = if db_data Sample.quiet ([] ++ [EvFreelistRollback 8])
          then [EvFreelistRollback 8; EvFreelistReload; EvUnlock]
          else tr').
Proof.
  apply (rollback_differs_by_reload Sample.quiet (Sample.opened true)
           (meta.mk (bucket.mk 3 0) 514 8 8)).
  intros _. reflexivity.
Defined.

(** X11.  A rolled-back transaction is finished for good: once [Rollback] has
    returned nil, [Commit], a second [Rollback] and [Page] all return
    [ErrTxClosed], the internal [rollback] and [close] do nothing, and none of
    them changes the state or calls a collaborator again. *)
Theorem Rollback_is_final (E : env) (s s' : state) :
  Rollback s = Some (Ret None, s') ->
  db (tx s') = false /\ meta (tx s') = None /\ pages (tx s') = None /\
  Commit E s' = Some (Ret (Some ErrTxClosed), s') /\
  Rollback s' = Some (Ret (Some ErrTxClosed), s') /\
  (forall n, Page E n s' = Some (Ret (None, Some ErrTxClosed), s')) /\
  rollback E s' = Some (Ret tt, s') /\
  close s' = Some (Ret tt, s').
Proof.
  destruct s as [[w mg d me r ps sw hs] dbs lg].
  unfold Rollback, nonPhysicalRollback, close. run.
  destruct mg; [discriminate |]. destruct d; [| discriminate].
  destruct w; [destruct me as [m |]; [| discriminate] |]; run;
    intros H; injection H as <-; repeat split; reflexivity.
Qed.

Lemma Rollback_is_final_witness :
  exists s',
    Rollback (Sample.opened true) = Some (Ret None, s') /\
    Commit Sample.quiet s' = Some (Ret (Some ErrTxClosed), s') /\
    Rollback s' = Some (Ret (Some ErrTxClosed), s').
Proof.
  eexists. split; [reflexivity |].
  split;
    apply (Rollback_is_final Sample.quiet (Sample.opened true) _ eq_refl).
Defined.

Lemma page_cached (E : env) (s : state) (i : Z) (ps : gmap Z page) (p : page) :
  pages (tx s) = Some ps -> ps !! i = Some p -> fastCheck p i = Ret tt ->
  page_ E i s = Some (Ret p, s).
Proof.
  destruct s as [[w mg d me r pgs sw hs] dbs lg]. cbn [tx pages].
  intros -> Hp Hok. unfold page_. run. cbn [mbind option_bind].
  rewrite Hp, Hok. reflexivity.
Qed.

(** X12.  [tx.page(id)] looks in the dirty-page cache first: a page cached
    under the id is the answer whatever the memory map holds there, and only
    an uncached id is read from the map. Either way the page goes through
    [fastCheck], so a page that is returned carries the id asked for and
    exactly one type flag; the call changes nothing. *)
Theorem page_prefers_dirty (E : env) (s : state) (i : Z) :
  (forall ps p,
      pages (tx s) = Some ps -> ps !! i = Some p -> fastCheck p i = Ret tt ->
      page_ E i s = Some (Ret p, s)) /\
  (forall ps p msg,
      pages (tx s) = Some ps -> ps !! i = Some p -> fastCheck p i = Fatal msg ->
      page_ E i s = Some (Fatal msg, s)) /\
  (pages (tx s) ≫= (.!! i) = None -> db (tx s) = true ->
   fastCheck (db_page E (log s) i) i = Ret tt ->
   page_ E i s = Some (Ret (db_page E (log s) i), s)) /\
  (forall p s',
      page_ E i s = Some (Ret p, s') ->
      s' = s /\ id p = i /\
      (flags p = branchPageFlag \/ flags p = leafPageFlag \/
       flags p = metaPageFlag \/ flags p = freelistPageFlag)).
Proof.
  destruct s as [[w mg d me r pgs sw hs] dbs lg].
  cbn [tx database log db pages].
  split; [| split; [| split]].
  - intros ps p Hps Hp Hok. by apply (page_cached E _ i ps p).
  - intros ps p msg -> Hp Hbad. unfold page_. run. cbn [mbind option_bind].
    rewrite Hp, Hbad. reflexivity.
  - intros Hnone -> Hok. unfold page_. run.
    change (option_bind _ _ (lookup i) pgs) with (pgs ≫= (.!! i)).
    rewrite Hnone, Hok. reflexivity.
  - intros p s'. unfold page_. run.
    change (option_bind _ _ (lookup i) pgs) with (pgs ≫= (.!! i)).
    destruct (pgs ≫= (.!! i)) as [q |] eqn:Hq.
    + destruct (fastCheck q i) eqn:Hfc; [| discriminate].
      intros H. injection H as <- <-. destruct a.
      split; [reflexivity |]. apply CheckFacts.fastCheck_passed. exact Hfc.
    + destruct d; [| discriminate].
      destruct (fastCheck (db_page E lg i) i) eqn:Hfc; [| discriminate].
      intros H. injection H as <- <-. destruct a.
      split; [reflexivity |]. apply CheckFacts.fastCheck_passed. exact Hfc.
Qed.

(** *** The freelist page of a commit *)

(** What a [commitFreelist] that returned nil has done. *)
Lemma commitFreelist_success (E : env) (s s' : state) (m : meta.t)
      (ps : gmap Z page) :
  meta (tx s) = Some m -> pages (tx s) = Some ps ->
  commitFreelist E s = Some (Ret None, s') ->
  let P := DB.pageSize (database s) in
  let size := freelist_size E (log s) in
  exists npages,
    (size < P /\ npages = 1 \/
     P <= size /\ P <> 0 /\ npages = int64 (Z.quot size P + 1)) /\
    size < int64 (freelistRegionSize E - P) /\
    let p0 := mkPage (uint64 (2 + uint64 ((meta.flid m mod 2)
                                          * uint64 (freelistRegionSize E))
                                  / uint64 P))
                     0 0 (uint32 (uint32 npages - 1)) in
    let p := mkPage (id p0) freelistPageFlag
                    (fst (freelist_write E (log s) p0)) (overflow p0) in
    s' = mkState (set_pages (Some (<[id p := p]> ps)) (tx s)) (database s)
                 (log s ++ [EvFreelistWrite p None]).
Proof.
  destruct s as [[w mg d me r pgs sw hs] [psz sm ns fl dm] lg].
  cbn [tx database log meta pages DB.pageSize]. intros -> ->.
  unfold commitFreelist, rollback, close. run. cbn [DB.pageSize DB.freelist].
  destruct (d && fl); run; [| discriminate].
  destruct (Z.ltb_spec (freelist_size E lg) (int64 (freelistRegionSize E - psz)))
    as [Hfit | Hover]; run; [| discriminate].
  destruct (Z.ltb_spec (freelist_size E lg) psz) as [Hsmall | Hlarge]; run.
  - destruct (uint64 psz =? 0); run; [discriminate |].
    destruct (freelist_write E lg _) as [n [e |]] eqn:Hfw; run.
    + repeat match goal with
             | |- context [if ?c then _ else _] => destruct c; run
             end; discriminate.
    + intros H. injection H as <-. exists 1. split; [left; done |].
      split; [exact Hfit |]. cbn zeta. cbn [id overflow]. rewrite Hfw. reflexivity.
  - destruct (Z.eqb_spec psz 0) as [Hz | Hnz]; run; [discriminate |].
    destruct (int64 (int64 (Z.quot (freelist_size E lg) psz + 1) * psz) <? 0);
      run; [discriminate |].
    destruct (int64 (int64 (Z.quot (freelist_size E lg) psz + 1) * psz) =? 0);
      run; [discriminate |].
    destruct (uint64 psz =? 0); run; [discriminate |].
    destruct (freelist_write E lg _) as [n [e |]] eqn:Hfw; run.
    + repeat match goal with
             | |- context [if ?c then _ else _] => destruct c; run
             end; discriminate.
    + intros H. injection H as <-.
      exists (int64 (Z.quot (freelist_size E lg) psz + 1)).
      split; [right; done |].
      split; [exact Hfit |]. cbn zeta. cbn [id overflow]. rewrite Hfw. reflexivity.
Qed.

(** X13.  The freelist of a commit never leaves its region. With regions of
    [freelistRegionSize / pageSize] pages starting at page 2, the pages
    [commitFreelist] puts into the dirty-page cache (the page and its
    overflow) lie in region [flid % 2]: they touch neither the two meta pages
    nor the other region, which still holds the freelist of the last commit. *)
Theorem commitFreelist_stays_in_region (E : env) (s s' : state) (m : meta.t)
        (ps : gmap Z page) :
  meta (tx s) = Some m -> pages (tx s) = Some ps ->
  0 < DB.pageSize (database s) ->
  DB.pageSize (database s) <= freelistRegionSize E < 2 ^ 62 ->
  freelistRegionSize E < 2 ^ 32 * DB.pageSize (database s) ->
  0 <= freelist_size E (log s) -> 0 <= meta.flid m ->
  commitFreelist E s = Some (Ret None, s') ->
  let q := freelistRegionSize E / DB.pageSize (database s) in
  exists p,
    pages (tx s') = Some (<[id p := p]> ps) /\
    flags p = freelistPageFlag /\
    2 + (meta.flid m mod 2) * q <= id p /\
    id p + overflow p + 1 <= 2 + (meta.flid m mod 2 + 1) * q.
Proof.
  intros Hmeta Hpages HP HR HR32 Hsz Hflid Hrun q.
  destruct (commitFreelist_success E s s' m ps Hmeta Hpages Hrun)
    as (npages & Hn & Hfit & Hs').
  cbn zeta in Hs'. cbn [id overflow] in Hs'.
  set (P := DB.pageSize (database s)) in *.
  set (R := freelistRegionSize E) in *.
  set (size := freelist_size E (log s)) in *.
  rewrite int64_small in Hfit by lia.
  rewrite freelist_page_id in Hs' by lia.
  pose proof (Z.mod_pos_bound (meta.flid m) 2 ltac:(lia)) as Hb.
  assert (Hq : 1 <= q) by (subst q; apply Z.div_le_lower_bound; lia).
  assert (Hid : meta.flid m mod 2 * R / P = (meta.flid m mod 2) * q).
  { assert (Hc : meta.flid m mod 2 = 0 \/ meta.flid m mod 2 = 1) by lia.
    destruct Hc as [-> | ->]; [reflexivity |]. rewrite !Z.mul_1_l. reflexivity. }
  assert (Hov : 0 <= uint32 (uint32 npages - 1) /\ uint32 (uint32 npages - 1) + 1 <= q).
  { destruct Hn as [[Hsmall ->] | (Hlarge & _ & ->)].
    - change (uint32 (uint32 1 - 1)) with 0. lia.
    - destruct (freelist_pages_many size P) as (_ & _ & ->); try lia.
      assert (0 <= size / P) by (apply Z.div_pos; lia).
      assert (size / P < q); [| lia].
      subst q. apply Z.div_lt_upper_bound; [lia |].
      assert (P * (R / P) > R - P); [| lia].
      pose proof (Z.mul_div_le R P ltac:(lia)).
      pose proof (Z.mul_succ_div_gt R P ltac:(lia)). lia. }
  match type of Hs' with
  | context [<[_ := ?p]> ps] => exists p
  end.
  rewrite Hs'. cbn [tx pages set_pages id flags overflow].
  split; [reflexivity |]. split; [reflexivity |].
  rewrite Hid. lia.
Qed.

Lemma commitFreelist_stays_in_region_witness :
  exists p,
    pages (tx (mkState
                 (set_pages (Some (<[2 := mkPage 2 freelistPageFlag 2 0]> ∅))
                            (tx (Sample.opened true)))
                 Sample.db0
                 [EvFreelistWrite (mkPage 2 freelistPageFlag 2 0) None]))
    = Some (<[id p := p]> ∅) /\
    flags p = freelistPageFlag /\
    2 + (8 mod 2) * (0x100000 / 4096) <= id p /\
    id p + overflow p + 1 <= 2 + (8 mod 2 + 1) * (0x100000 / 4096).
Proof.
  apply (commitFreelist_stays_in_region Sample.quiet (Sample.opened true) _
           (meta.mk (bucket.mk 3 0) 514 8 8) ∅);
    [reflexivity | reflexivity | cbn; lia .. | reflexivity].
Defined.



(** *** The dirty-page write, whatever the file answers *)



(** How many of them succeeded. *)
Definition written (evs : list event) (r : option error) : nat :=
  match r with
  | None => length evs
  | Some _ => pred (length evs)
  end.






(** *** What a commit's calls add up to *)

(** [Commit] of an open, writable, unmanaged transaction ends, and its calls
    form a [commit_run]. *)
Lemma Commit_trace (E : env) (s : state) (m : meta.t) (b : bucket.t) :
  2 <= maxAllocSize E ->
  managed (tx s) = false -> db (tx s) = true -> writable (tx s) = true ->
  meta (tx s) = Some m -> root (tx s) = Some b ->
  exists out s' tr,
    Commit E s = Some (out, s') /\
    log s' = log s ++ tr /\
    commit_run (meta.pgid m <? sp_pgid (root_spill E (log s ++ [EvRebalance])))
               (DB.StrictMode (database s)) (commitHandlers (tx s)) tr out /\
    (forall e, out = Ret e -> db (tx s') = false).
Proof.
  intros HL Hmg Hdb Hw Hmeta Hroot.
  assert (HL' : 1 <= maxAllocSize E - 1) by lia.
  destruct s as [[w mg d me r ps sw hs] dbs lg].
  cbn [tx database log managed db writable meta root commitHandlers] in *.
  subst w mg d me r.
  unfold Commit. fold (commit_tail E). run.
  set (sp := root_spill E (lg ++ [EvRebalance])).
  destruct (sp_err sp) as [e |] eqn:Hsp; run.
  { erewrite rollback_writable by reflexivity. cbn [tx database log].
    eexists _, _, ([EvRebalance; EvSpill (Some e)] ++ rollback_events E _ _).
    split; [reflexivity |]. split; [by rewrite <- !app_assoc |].
    split; [| reflexivity].
    apply run_spill_failed. apply rollback_events_run. }
  cbn [meta.root meta.pgid meta.txid meta.flid bucket.root bucket.sequence].
  match goal with
  | |- context [commitFreelist E ?s1] =>
      destruct (commitFreelist_cases E s1 _ _ eq_refl eq_refl eq_refl eq_refl)
        as [[msg Hcf] | [(p & e & Hcf) | [p Hcf]]];
      rewrite Hcf; clear Hcf
  end.
  { eexists _, _, [EvRebalance; EvSpill None; EvSetRoot (sp_root sp)].
    split; [reflexivity |]. split; [cbn [log]; by rewrite <- !app_assoc |].
    split; [apply run_freelist_panic | discriminate]. }
  { cbn [tx database log meta.txid].
    eexists _, _, ([EvRebalance; EvSpill None; EvSetRoot (sp_root sp);
                    EvFreelistWrite p (Some e)] ++ rollback_events E _ _).
    split; [reflexivity |]. split; [cbn [log]; by rewrite <- !app_assoc |].
    split; [| reflexivity].
    apply run_freelist_failed. apply rollback_events_run. }
  cbn [tx database log set_pages writable managed db meta root pages
       stats_Write commitHandlers].
  run. cbn [meta.root meta.pgid meta.txid meta.flid bucket.root bucket.sequence].
  fold (commit_tail E).
  set (lg1 := (((lg ++ [EvRebalance]) ++ [EvSpill None])
                 ++ [EvSetRoot (sp_root sp)]) ++ [EvFreelistWrite p None]).
  set (x1 := mk true false true
                (Some (meta.mk (bucket.mk (sp_root sp) (bucket.sequence (meta.root m)))
                               (sp_pgid sp) (meta.txid m) (meta.flid m)))
                (Some (bucket.mk (sp_root sp) (bucket.sequence b)))
                (Some (<[id p := p]> (sp_pages sp))) sw hs).
  assert (Htail : forall g,
             grow_step (meta.pgid m <? sp_pgid sp) g ->
             exists out s' tr,
               commit_tail E {| tx := x1; database := dbs; log := lg1 ++ g |}
               = Some (out, s') /\
               log s' = lg ++ tr /\
               commit_run (meta.pgid m <? sp_pgid sp) (DB.StrictMode dbs) hs tr out /\
               (forall e, out = Ret e -> db (tx s') = false)).
  { intros g Hg.
    destruct (commit_tail_runs E {| tx := x1; database := dbs; log := lg1 ++ g |}
                _ HL' eq_refl eq_refl eq_refl)
      as (out & s' & tr & Hrun & Hlog & Htr & Hclosed).
    cbn [tx database log commitHandlers] in *.
    exists out, s',
      ([EvRebalance; EvSpill None; EvSetRoot (sp_root sp); EvFreelistWrite p None]
         ++ g ++ tr).
    split; [exact Hrun |].
    split; [rewrite Hlog; subst lg1; by rewrite <- !app_assoc |].
    split; [| exact Hclosed].
    destruct Htr.
    - apply run_write_failed; assumption.
    - apply run_check_failed; assumption.
    - apply run_meta_failed; assumption.
    - apply run_committed; assumption. }
  destruct (meta.pgid m <? sp_pgid sp) eqn:Hgrew; run.
  - set (sz := int64 (int64 (uint64 (sp_pgid sp + 1)) * DB.pageSize dbs)).
    destruct (db_grow E lg1 sz) as [e |] eqn:Hgrow; run.
    + erewrite rollback_writable by reflexivity. cbn [tx database log meta.txid].
      eexists _, _, ([EvRebalance; EvSpill None; EvSetRoot (sp_root sp);
                      EvFreelistWrite p None; EvGrow sz (Some e)]
                       ++ rollback_events E _ _).
      split; [reflexivity |].
      split; [subst lg1; by rewrite <- !app_assoc |].
      split; [| reflexivity].
      apply run_grow_failed; [reflexivity | apply rollback_events_run].
    + apply (Htail [EvGrow sz None]). exists sz. reflexivity.
  - destruct (Htail [] eq_refl) as (out & s' & tr & Hrun & Hrest).
    rewrite app_nil_r in Hrun. eauto.
Qed.

(** The handlers a run of calls has invoked, in order. *)
Definition handlers_run (tr : list event) : list nat :=
  omap (fun e => match e with EvHandler h => Some h | _ => None end) tr.

Definition is_handler (e : event) : Prop :=
  match e with
  | EvHandler _ => True
  | _ => False
  end.

Lemma handlers_run_none (tr : list event) :
  Forall (fun e => ~ is_handler e) tr -> handlers_run tr = [].
Proof.
  induction 1 as [| e tr He _ IH]; [reflexivity |].
  unfold handlers_run in *. cbn [omap list_omap].
  destruct e; cbn in He |- *; try exact IH. tauto.
Qed.

Lemma handlers_run_app (tr1 tr2 : list event) :
  handlers_run (tr1 ++ tr2) = handlers_run tr1 ++ handlers_run tr2.
Proof. unfold handlers_run. apply omap_app. Qed.

Lemma handlers_run_map (hs : list nat) : handlers_run (map EvHandler hs) = hs.
Proof.
  induction hs as [| h hs IH]; [reflexivity |].
  unfold handlers_run in *. cbn. by rewrite IH.
Qed.

Lemma write_run_no_handler (wr : list event) (r : option error) :
  write_run wr r -> Forall (fun e => ~ is_handler e) wr.
Proof.
  intros [Hp _]. eapply Forall_impl; [exact Hp |].
  intros [] ?; cbn in *; tauto.
Qed.

Lemma meta_run_no_handler (mw : list event) (r : option error) :
  meta_run mw r -> Forall (fun e => ~ is_handler e) mw.
Proof.
  intros [(m & n & off & r0 & tl & -> & Htl) _].
  constructor; [cbn; tauto |].
  destruct Htl as [-> | [r1 ->]]; repeat constructor; cbn; tauto.
Qed.

Lemma rollback_run_no_handler (rb : list event) :
  rollback_run rb -> Forall (fun e => ~ is_handler e) rb.
Proof. intros [txid [-> | ->]]; repeat constructor; cbn; tauto. Qed.

Lemma grow_step_no_handler (grew : bool) (g : list event) :
  grow_step grew g -> Forall (fun e => ~ is_handler e) g.
Proof.
  destruct grew; cbn; [intros [sz ->] | intros ->]; repeat constructor.
  cbn. tauto.
Qed.

Lemma check_step_no_handler (strict : bool) (c : list event) :
  check_step strict c -> Forall (fun e => ~ is_handler e) c.
Proof.
  unfold check_step. intros ->. destruct strict; repeat constructor.
  cbn. tauto.
Qed.

Lemma commit_run_handlers (grew strict : bool) (hs : list nat)
      (tr : list event) (out : outcome (option error)) :
  commit_run grew strict hs tr out ->
  handlers_run tr = (if out is Ret None then hs else []) /\
  (out = Ret None -> exists pre, tr = pre ++ EvUnlock :: map EvHandler hs).
Proof.
  intros Hrun.
  assert (Hquiet : forall l : list event,
             Forall (fun e => ~ is_handler e) l -> handlers_run l = [])
    by exact handlers_run_none.
  destruct Hrun as [e rb Hrb | r msg | r p e rb Hrb | r p sz e rb Hg Hrb
                    | r p g wr e rb Hg Hwr Hrb | r p g wr errs msg Hs He Hg Hwr
                    | r p g wr c mw e rb Hg Hwr Hc Hmw Hrb
                    | r p g wr c mw Hg Hwr Hc Hmw].
  all: try (split; [| discriminate]; apply Hquiet;
            repeat (apply Forall_app; split);
            eauto using rollback_run_no_handler, write_run_no_handler,
              meta_run_no_handler, grow_step_no_handler, check_step_no_handler;
            repeat constructor; cbn; tauto).
  split.
  - rewrite !handlers_run_app.
    rewrite (Hquiet g), (Hquiet wr), (Hquiet c), (Hquiet mw)
      by eauto using write_run_no_handler, meta_run_no_handler,
           grow_step_no_handler, check_step_no_handler.
    rewrite handlers_run_map. reflexivity.
  - intros _.
    exists ([EvRebalance; EvSpill None; EvSetRoot r; EvFreelistWrite p None]
              ++ g ++ wr ++ c ++ mw).
    rewrite <- !app_assoc. reflexivity.
Qed.

(** X16.  Commit handlers run exactly when the commit succeeds. A handler
    registered with [OnCommit] joins the end of the list; a [Commit] that
    returns nil calls every registered handler once, in the order of
    registration, as its last calls and after the writer lock is released; a
    [Commit] that returns an error or panics calls none. *)
Theorem handlers_follow_success (E : env) (s : state) (m : meta.t)
        (b : bucket.t) (fn : nat) :
  2 <= maxAllocSize E ->
  managed (tx s) = false -> db (tx s) = true -> writable (tx s) = true ->
  meta (tx s) = Some m -> root (tx s) = Some b ->
  exists s1 out s' tr,
    OnCommit fn s = Some (Ret tt, s1) /\
    Commit E s1 = Some (out, s') /\
    log s' = log s ++ tr /\
    handlers_run tr
    = (if out is Ret None then commitHandlers (tx s) ++ [fn] else []) /\
    (out = Ret None ->
     exists pre,
       tr = pre ++ EvUnlock :: map EvHandler (commitHandlers (tx s) ++ [fn])).
Proof.
  intros HL Hmg Hdb Hw Hmeta Hroot.
  destruct s as [[w mg d me r ps sw hs] dbs lg].
  cbn [tx database log managed db writable meta root commitHandlers] in *.
  subst w mg d me r.
  destruct (Commit_trace E
              {| tx := mk true false true (Some m) (Some b) ps sw (hs ++ [fn]);
                 database := dbs; log := lg |} m b HL
              eq_refl eq_refl eq_refl eq_refl eq_refl)
    as (out & s' & tr & Hrun & Hlog & Htr & _).
  cbn [tx database log commitHandlers] in *.
  exists {| tx := mk true false true (Some m) (Some b) ps sw (hs ++ [fn]);
            database := dbs; log := lg |}, out, s', tr.
  split; [reflexivity |]. split; [exact Hrun |]. split; [exact Hlog |].
  exact (commit_run_handlers _ _ _ _ _ Htr).
Qed.

Lemma handlers_follow_success_witness :
  exists s1 out s' tr,
    OnCommit 3%nat (Sample.opened true) = Some (Ret tt, s1) /\
    Commit Sample.quiet s1 = Some (out, s') /\
    log s' = [] ++ tr /\
    handlers_run tr = (if out is Ret None then [1; 2]%nat ++ [3%nat] else []) /\
    (out = Ret None ->
     exists pre, tr = pre ++ EvUnlock :: map EvHandler ([1; 2]%nat ++ [3%nat])).
Proof.
  apply (handlers_follow_success Sample.quiet (Sample.opened true)
           (meta.mk (bucket.mk 3 0) 514 8 8) (bucket.mk 3 0) 3%nat);
    [cbn; lia | reflexivity ..].
Defined.

(** A write of the meta page; a call that went well (no error, and a check
    that found nothing). *)
Definition is_meta_write (e : event) : Prop :=
  match e with
  | EvWriteAt (MetaBuf _) _ _ _ => True
  | _ => False
  end.

Definition went_well (e : event) : Prop :=
  ev_err e = None /\
  match e with
  | EvCheck errs => errs = []
  | _ => True
  end.

Lemma split_at_first (P : event -> Prop) (L R pre post : list event)
      (x ev : event) :
  L ++ x :: R = pre ++ ev :: post ->
  Forall (fun e => ~ P e) L -> P ev ->
  (pre = L /\ ev = x /\ post = R) \/ ev ∈ R.
Proof.
  revert pre. induction L as [| a L IH]; intros pre Heq HL Hev.
  - destruct pre as [| y pre]; cbn in Heq.
    + injection Heq as -> ->. by left.
    + injection Heq as -> ->. right. apply elem_of_app. right. left.
  - apply Forall_cons in HL as [Ha HL].
    destruct pre as [| y pre]; cbn in Heq.
    + injection Heq as -> _. tauto.
    + injection Heq as -> Heq.
      destruct (IH pre Heq HL Hev) as [(-> & -> & ->) | Hin]; [by left | by right].
Qed.

Lemma write_run_quiet (wr : list event) (r : option error) :
  write_run wr r -> Forall (fun e => ~ is_meta_write e) wr.
Proof.
  intros [Hp _]. eapply Forall_impl; [exact Hp |].
  intros [| | | | | [] | | | | | | | |] ?; cbn in *; tauto.
Qed.

Lemma write_run_went_well (wr : list event) :
  write_run wr None -> Forall went_well wr.
Proof.
  intros [Hp Hs]. cbn in Hs.
  apply Forall_forall. intros e He.
  rewrite Forall_forall in Hp, Hs. specialize (Hp e He). specialize (Hs e He).
  split; [exact Hs |]. destruct e; cbn in Hp; try tauto.
Qed.

Lemma rollback_run_quiet (rb : list event) :
  rollback_run rb -> Forall (fun e => ~ is_writeAt e) rb.
Proof. intros [txid [-> | ->]]; repeat constructor; cbn; tauto. Qed.

Lemma grow_step_went_well (grew : bool) (g : list event) :
  grow_step grew g ->
  Forall went_well g /\ Forall (fun e => ~ is_meta_write e) g.
Proof.
  destruct grew; cbn; [intros [sz ->] | intros ->]; split; repeat constructor.
  cbn. tauto.
Qed.

Lemma check_step_went_well (strict : bool) (c : list event) :
  check_step strict c ->
  Forall went_well c /\ Forall (fun e => ~ is_meta_write e) c.
Proof.
  unfold check_step. intros ->. destruct strict; split; repeat constructor.
  cbn. tauto.
Qed.

Lemma not_writeAt_not_meta (l : list event) :
  Forall (fun e => ~ is_writeAt e) l -> Forall (fun e => ~ is_meta_write e) l.
Proof.
  intros H. eapply Forall_impl; [exact H |].
  intros [| | | | | [] | | | | | | | |]; cbn; tauto.
Qed.

(** Where the meta write stands in a commit: after calls that all went well,
    none of them a meta write, and before calls that write nothing. *)
Definition meta_write_last (tr : list event) : Prop :=
  forall pre ev post,
    tr = pre ++ ev :: post -> is_meta_write ev ->
    Forall went_well pre /\
    Forall (fun e => ~ is_meta_write e) pre /\
    Forall (fun e => ~ is_writeAt e) post.

Lemma no_meta_write_last (tr : list event) :
  Forall (fun e => ~ is_meta_write e) tr -> meta_write_last tr.
Proof.
  intros Hno pre ev post -> Hev.
  apply Forall_app in Hno as [_ Hno]. apply Forall_cons in Hno as [Hno _].
  tauto.
Qed.

Lemma meta_step_last (L mw rest : list event) (r : option error) :
  Forall went_well L -> Forall (fun e => ~ is_meta_write e) L ->
  meta_run mw r -> Forall (fun e => ~ is_writeAt e) rest ->
  meta_write_last (L ++ mw ++ rest).
Proof.
  intros Hwell Hno [(m & n & off & r0 & tl & -> & Htl) _] Hrest pre ev post Heq Hev.
  assert (Htail : Forall (fun e => ~ is_writeAt e) (tl ++ rest)).
  { apply Forall_app. split; [| exact Hrest].
    destruct Htl as [-> | [r1 ->]]; repeat constructor. cbn. tauto. }
  cbn [app] in Heq.
  destruct (split_at_first is_meta_write L (tl ++ rest) pre post _ ev Heq Hno Hev)
    as [(-> & -> & ->) | Hin].
  - done.
  - apply not_writeAt_not_meta in Htail.
    rewrite Forall_forall in Htail. specialize (Htail ev Hin). tauto.
Qed.

Lemma commit_run_meta (grew strict : bool) (hs : list nat)
      (tr : list event) (out : outcome (option error)) :
  commit_run grew strict hs tr out ->
  meta_write_last tr /\
  (out = Ret None ->
   exists pre ev post,
     tr = pre ++ ev :: post /\ is_meta_write ev /\ ev_err ev = None).
Proof.
  intros Hrun.
  destruct Hrun as [e rb Hrb | r msg | r p e rb Hrb | r p sz e rb Hg Hrb
                    | r p g wr e rb Hg Hwr Hrb | r p g wr errs msg Hs He Hg Hwr
                    | r p g wr c mw e rb Hg Hwr Hc Hmw Hrb
                    | r p g wr c mw Hg Hwr Hc Hmw].
  1-6: split; [| discriminate]; apply no_meta_write_last;
    repeat (apply Forall_app; split);
    eauto using write_run_quiet, not_writeAt_not_meta, rollback_run_quiet;
    try (by apply (grow_step_went_well grew));
    repeat constructor; cbn; tauto.
  - split; [| discriminate].
    rewrite !app_assoc. rewrite <- (app_assoc _ mw rb).
    apply (meta_step_last _ mw rb (Some e)); [| | exact Hmw |].
    + repeat (apply Forall_app; split);
        [repeat constructor | by apply (grow_step_went_well grew)
         | by apply write_run_went_well | by apply (check_step_went_well strict)].
    + repeat (apply Forall_app; split);
        [repeat constructor; cbn; tauto | by apply (grow_step_went_well grew)
         | by apply (write_run_quiet wr None)
         | by apply (check_step_went_well strict)].
    + by apply rollback_run_quiet.
  - split.
    + rewrite !app_assoc.
      rewrite <- (app_assoc _ [EvUnlock]), <- (app_assoc _ mw).
      apply (meta_step_last _ mw _ None); [| | exact Hmw |].
      * repeat (apply Forall_app; split);
          [repeat constructor | by apply (grow_step_went_well grew)
           | by apply write_run_went_well | by apply (check_step_went_well strict)].
      * repeat (apply Forall_app; split);
          [repeat constructor; cbn; tauto | by apply (grow_step_went_well grew)
           | by apply (write_run_quiet wr None)
           | by apply (check_step_went_well strict)].
      * apply Forall_app. split; [repeat constructor; cbn; tauto |].
        apply Forall_forall. intros ev Hev.
        apply list_elem_of_fmap in Hev as [h [-> _]]. cbn. tauto.
    + intros _. destruct Hmw as [(m & n & off & r0 & tl & -> & Htl) Hstep].
      cbn in Hstep. apply Forall_cons in Hstep as [Hr0 _].
      exists ([EvRebalance; EvSpill None; EvSetRoot r; EvFreelistWrite p None]
                ++ g ++ wr ++ c),
        (EvWriteAt (MetaBuf m) n off r0),
        (tl ++ [EvUnlock] ++ map EvHandler hs).
      split; [by rewrite <- !app_assoc | split; [exact I | exact Hr0]].
Qed.

(** X17.  The meta page is what makes a commit count, and [Commit] writes it
    last: at most once, only after the spill, the freelist write, the grow,
    every dirty-page write, the sync and (in strict mode) the check have all
    gone well, and with no other write to the file after it. A [Commit] that
    returns nil has written it, without an error. *)
Theorem meta_written_last (E : env) (s : state) (m : meta.t) (b : bucket.t) :
  2 <= maxAllocSize E ->
  managed (tx s) = false -> db (tx s) = true -> writable (tx s) = true ->
  meta (tx s) = Some m -> root (tx s) = Some b ->
  exists out s' tr,
    Commit E s = Some (out, s') /\
    log s' = log s ++ tr /\
    (forall pre ev post,
        tr = pre ++ ev :: post -> is_meta_write ev ->
        Forall went_well pre /\
        Forall (fun e => ~ is_meta_write e) pre /\
        Forall (fun e => ~ is_writeAt e) post) /\
    (out = Ret None ->
     exists pre ev post,
       tr = pre ++ ev :: post /\ is_meta_write ev /\ ev_err ev = None).
Proof.
  intros HL Hmg Hdb Hw Hmeta Hroot.
  destruct (Commit_trace E s m b HL Hmg Hdb Hw Hmeta Hroot)
    as (out & s' & tr & Hrun & Hlog & Htr & _).
  exists out, s', tr. split; [exact Hrun |]. split; [exact Hlog |].
  exact (commit_run_meta _ _ _ _ _ Htr).
Qed.

Lemma meta_written_last_witness :
  exists out s' tr,
    Commit Sample.disk_full (Sample.opened true) = Some (out, s') /\
    log s' = [] ++ tr /\
    (forall pre ev post,
        tr = pre ++ ev :: post -> is_meta_write ev ->
        Forall went_well pre /\
        Forall (fun e => ~ is_meta_write e) pre /\
        Forall (fun e => ~ is_writeAt e) post) /\
    (out = Ret None ->
     exists pre ev post,
       tr = pre ++ ev :: post /\ is_meta_write ev /\ ev_err ev = None).
Proof.
  apply (meta_written_last Sample.disk_full (Sample.opened true)
           (meta.mk (bucket.mk 3 0) 514 8 8) (bucket.mk 3 0));
    [cbn; lia | reflexivity ..].
Defined.














(** X18.  [ID] and [Size] are for open transactions only. On an open
    transaction they return the transaction id and the page high-water mark
    times the page size; once [Rollback] has closed the transaction both panic
    on the nil [tx.meta] (where [Commit], [Rollback] and [Page] return
    [ErrTxClosed]), while [Writable] still answers as before. *)
Theorem ID_and_Size_need_open_tx (s s' : state) (m : meta.t) :
  meta (tx s) = Some m ->
  0 <= meta.txid m < 2 ^ 63 ->
  0 < meta.pgid m -> 0 < DB.pageSize (database s) ->
  meta.pgid m * DB.pageSize (database s) < 2 ^ 63 ->
  Rollback s = Some (Ret None, s') ->
  ID s = Some (Ret (meta.txid m), s) /\
  Size s = Some (Ret (meta.pgid m * DB.pageSize (database s)), s) /\
  ID s' = Some (Fatal "invalid memory address or nil pointer dereference", s') /\
  Size s' = Some (Fatal "invalid memory address or nil pointer dereference", s') /\
  Writable s' = Some (Ret (writable (tx s)), s').
Proof.
  destruct s as [[w mg d me r ps sw hs] [psz sm ns fl dm] lg].
  cbn [tx database meta writable DB.pageSize].
  intros -> Htx Hpg HP Hsz.
  unfold Rollback, nonPhysicalRollback, close. run.
  destruct mg; [discriminate |]. destruct d; [| discriminate].
  assert (Hid : ID {| tx := mk w false true (Some m) r ps sw hs;
                      database := DB.mk psz sm ns fl dm; log := lg |}
                = Some (Ret (meta.txid m),
                        {| tx := mk w false true (Some m) r ps sw hs;
                           database := DB.mk psz sm ns fl dm; log := lg |})).
  { unfold ID. run. rewrite int64_small by lia. reflexivity. }
  assert (Hsize : Size {| tx := mk w false true (Some m) r ps sw hs;
                          database := DB.mk psz sm ns fl dm; log := lg |}
                  = Some (Ret (meta.pgid m * psz),
                          {| tx := mk w false true (Some m) r ps sw hs;
                             database := DB.mk psz sm ns fl dm; log := lg |})).
  { unfold Size. run. cbn [DB.pageSize].
    assert (meta.pgid m < 2 ^ 63) by nia.
    assert (psz < 2 ^ 63) by nia.
    rewrite (int64_small (meta.pgid m)), (int64_small psz) by lia.
    rewrite int64_small by lia. reflexivity. }
  destruct w; run; intros H; injection H as <-;
    (split; [exact Hid |]); (split; [exact Hsize |]); repeat split; reflexivity.
Qed.

Lemma ID_and_Size_need_open_tx_witness :
  exists s',
    Rollback (Sample.opened false) = Some (Ret None, s') /\
    ID (Sample.opened false) = Some (Ret 7, Sample.opened false) /\
    Size (Sample.opened false) = Some (Ret (514 * 4096), Sample.opened false) /\
    ID s' = Some (Fatal "invalid memory address or nil pointer dereference", s') /\
    Size s' = Some (Fatal "invalid memory address or nil pointer dereference", s') /\
    Writable s' = Some (Ret false, s').
Proof.
  eexists. split; [reflexivity |].
  apply (ID_and_Size_need_open_tx (Sample.opened false) _ Sample.meta0);
    [reflexivity | cbn; lia .. | reflexivity].
Defined.

End TxMore.
